(** * dremio-mcp-lite: the Dremio REST client, verified

    A shallow embedding of [src/dremio-client.ts] (the revision with
    identifier escaping, per-segment catalog encoding and FAILED/CANCELED
    detail capture) together with the properties its specification states.

    Layout: JavaScript strings and the built-ins the client calls, the
    HTTP effect monad, the client itself, the earlier revision of the client
    kept in the repository, and then the theorems. *)

From Stdlib Require Import List NArith ZArith Bool Ascii String Lia.
Import ListNotations.

Set Implicit Arguments.

(* ================================================================== *)
(** ** JavaScript strings *)
(* ================================================================== *)

Module JS.

Local Open Scope N_scope.

(** A JavaScript string is a sequence of UTF-16 code units. *)
Definition codeunit := N.
Definition jsstring := list codeunit.

(** Literals: an ASCII Rocq string read as code units. *)
Definition js (s : string) : jsstring :=
  map N_of_ascii (list_ascii_of_string s).

Definition LF : codeunit := 10.
Definition DASH : codeunit := 45.
Definition SLASH : codeunit := 47.
Definition STAR : codeunit := 42.
Definition DQUOTE : codeunit := 34.
Definition DOT : codeunit := 46.
Definition SPACE : codeunit := 32.
Definition PERCENT : codeunit := 37.

(** ECMAScript WhiteSpace and LineTerminator code points: what
    [String.prototype.trim] removes and what the regular expression
    class [\s] accepts. *)
Definition isWhiteSpace (c : codeunit) : bool :=
  existsb (N.eqb c)
    [9; 10; 11; 12; 13; 32; 160; 5760; 8232; 8233; 8239; 8287; 12288; 65279]
  || ((8192 <=? c) && (c <=? 8202)).

Fixpoint trimStart (s : jsstring) : jsstring :=
  match s with
  | [] => []
  | c :: t => if isWhiteSpace c then trimStart t else s
  end.

Definition trimEnd (s : jsstring) : jsstring := rev (trimStart (rev s)).

(** [s.trim()] *)
Definition trim (s : jsstring) : jsstring := trimEnd (trimStart s).

(** [Array.prototype.join] on an array of strings. *)
Fixpoint join (sep : jsstring) (parts : list jsstring) : jsstring :=
  match parts with
  | [] => []
  | [p] => p
  | p :: rest => p ++ sep ++ join sep rest
  end.

Fixpoint startsWith (s prefix : jsstring) {struct prefix} : bool :=
  match prefix, s with
  | [], _ => true
  | p :: prefix', c :: s' => (c =? p) && startsWith s' prefix'
  | _ :: _, [] => false
  end.

(** [s.includes(t)]: [t] occurs in [s] as a contiguous substring. *)
Fixpoint includes (s t : jsstring) : bool :=
  startsWith s t ||
  match s with
  | [] => false
  | _ :: s' => includes s' t
  end.

(** *** [encodeURIComponent] *)

(** uriUnreserved: ASCII letters, decimal digits and [- _ . ! ~ * ' ( )]. *)
Definition isUnreserved (c : codeunit) : bool :=
  ((65 <=? c) && (c <=? 90)) || ((97 <=? c) && (c <=? 122))
  || ((48 <=? c) && (c <=? 57))
  || existsb (N.eqb c) [45; 95; 46; 33; 126; 42; 39; 40; 41].

Definition hexDigit (n : N) : codeunit :=
  if n <? 10 then 48 + n else 55 + n.

(** One octet as [%XX], upper-case hexadecimal. *)
Definition pctOctet (b : N) : jsstring :=
  [PERCENT; hexDigit (b / 16); hexDigit (b mod 16)].

(** UTF-8 octets of a code point. *)
Definition utf8 (cp : N) : list N :=
  if cp <? 128 then [cp]
  else if cp <? 2048 then [192 + cp / 64; 128 + cp mod 64]
  else if cp <? 65536 then
    [224 + cp / 4096; 128 + (cp / 64) mod 64; 128 + cp mod 64]
  else
    [240 + cp / 262144; 128 + (cp / 4096) mod 64;
     128 + (cp / 64) mod 64; 128 + cp mod 64].

Definition pctEncode (cp : N) : jsstring := flat_map pctOctet (utf8 cp).

Definition isHighSurrogate (c : codeunit) : bool := (55296 <=? c) && (c <=? 56319).
Definition isLowSurrogate (c : codeunit) : bool := (56320 <=? c) && (c <=? 57343).

(** [encodeURIComponent(s)]; [None] is the [URIError] thrown on an
    unpaired surrogate. *)
Fixpoint encodeURIComponent (s : jsstring) : option jsstring :=
  match s with
  | [] => Some []
  | c :: t =>
    if isUnreserved c then option_map (cons c) (encodeURIComponent t)
    else if isLowSurrogate c then None
    else if isHighSurrogate c then
      match t with
      | d :: t' =>
        if isLowSurrogate d then
          option_map (app (pctEncode ((c - 55296) * 1024 + (d - 56320) + 65536)))
                     (encodeURIComponent t')
        else None
      | [] => None
      end
    else option_map (app (pctEncode c)) (encodeURIComponent t)
  end.

(** *** The three regular expressions of [isSelectQuery]

    Each scanner below is the left-to-right matcher of one regular
    expression of the source, with the global [replace] built in. *)

Definition hasNewline (s : jsstring) : bool := existsb (N.eqb LF) s.

(** [s.replace(/--[^\n]*\n/g, '\n')].  A match needs the two dashes, then
    every code unit up to the next line feed, then that line feed; where no
    line feed follows there is no match and the scan moves on by one code
    unit.  [inComment] is set while a match is being consumed. *)
Fixpoint lineScan (inComment : bool) (s : jsstring) : jsstring :=
  match s with
  | [] => []
  | c :: t =>
    if inComment then
      if c =? LF then LF :: lineScan false t else lineScan true t
    else
      match t with
      | d :: t' =>
        if (c =? DASH) && (d =? DASH) && hasNewline t'
        then lineScan true t
        else c :: lineScan false t
      | [] => [c]
      end
  end.

Definition stripLineComments (s : jsstring) : jsstring := lineScan false s.

(** Does [*/] occur in [s]? *)
Fixpoint hasBlockEnd (s : jsstring) : bool :=
  match s with
  | [] => false
  | c :: t =>
    match t with
    | d :: _ => ((c =? STAR) && (d =? SLASH)) || hasBlockEnd t
    | [] => false
    end
  end.

(** [s.replace(/\/\*[\s\S]*?\*\//g, '')].  A match is [/*], then lazily
    anything, then the first [*/] after the opener; an opener that is never
    closed is no match. *)
Fixpoint blockScan (inComment : bool) (s : jsstring) : jsstring :=
  match s with
  | [] => []
  | c :: t =>
    match t with
    | d :: t' =>
      if inComment then
        if (c =? STAR) && (d =? SLASH) then blockScan false t'
        else blockScan true t
      else
        if (c =? SLASH) && (d =? STAR) && hasBlockEnd t'
        then blockScan true t'
        else c :: blockScan false t
    | [] => if inComment then [] else [c]
    end
  end.

Definition stripBlockComments (s : jsstring) : jsstring := blockScan false s.

(** One letter of a pattern under the [i] flag (no [u] flag): only the two
    ASCII cases of the letter match. *)
Definition eqIgnoreCase (upper c : codeunit) : bool :=
  (c =? upper) || (c =? upper + 32).

(** [/^SELECT\s/i.test(s)] *)
Definition testSelect (s : jsstring) : bool :=
  match s with
  | c1 :: c2 :: c3 :: c4 :: c5 :: c6 :: w :: _ =>
    eqIgnoreCase 83 c1 && eqIgnoreCase 69 c2 && eqIgnoreCase 76 c3
    && eqIgnoreCase 69 c4 && eqIgnoreCase 67 c5 && eqIgnoreCase 84 c6
    && isWhiteSpace w
  | _ => false
  end.

End JS.

Import JS.

(** [isSelectQuery(sql)], src/dremio-client.ts. *)
Definition isSelectQuery (sql : jsstring) : bool :=
  let cleaned := trim sql in
  let cleaned := stripLineComments cleaned in
  let cleaned := stripBlockComments cleaned in
  let cleaned := trim cleaned in
  testSelect cleaned.

(* ================================================================== *)
(** ** Values, errors and the wire model *)
(* ================================================================== *)

(** Run-time values as far as [buildTableReference] inspects them: a
    table path arrives from the tool arguments as an array whose elements
    are not checked before it sees them. *)
Inductive jsval :=
| VUndefined
| VNull
| VBool (b : bool)
| VNumber (z : Z)
| VString (s : jsstring)
| VObject.

(** ToBoolean *)
Definition truthy (v : jsval) : bool :=
  match v with
  | VUndefined | VNull => false
  | VBool b => b
  | VNumber z => negb (z =? 0)%Z
  | VString s => match s with [] => false | _ => true end
  | VObject => true
  end.

(** [typeof v === 'string'] *)
Definition isString (v : jsval) : bool :=
  match v with VString _ => true | _ => false end.

(** A value as [JSON.parse] hands it over: what a result row and its
    cells are.  The client does one thing with a Number cell, which is to
    turn it into text, so a Number is held as the text that
    [Number.prototype.toString] gives for it ([1.5], [1e+21], [-7]). *)
#[warnings="-register-all"]
Inductive Json :=
| JNull
| JBool (b : bool)
| JNumber (shown : jsstring)
| JString (s : jsstring)
| JArray (items : list Json)
| JObject (members : list (jsstring * Json)).

(** The element conversion of [Array.prototype.join]: [null] gives the
    empty string, anything else its [ToString]; for an array that is its
    own [join] with a comma, for any other object [[object Object]]. *)
Fixpoint joinElement (v : Json) : jsstring :=
  match v with
  | JNull => []
  | JBool true => js "true"
  | JBool false => js "false"
  | JNumber shown => shown
  | JString s => s
  | JArray items => join [44%N] (map joinElement items)
  | JObject _ => js "[object Object]"
  end.

(** An optional string field under [x || fallback]: absent and empty are
    both falsy. *)
Definition orElse (field : option jsstring) (fallback : jsstring) : jsstring :=
  match field with
  | Some (c :: s) => c :: s
  | _ => fallback
  end.

(** An optional string field inside a template literal. *)
Definition interpolate (field : option jsstring) : jsstring :=
  match field with
  | Some s => s
  | None => js "undefined"
  end.

(** Strict equality of an optional string field with a string literal. *)
Definition strictEq (field : option jsstring) (lit : jsstring) : bool :=
  match field with
  | Some s => if list_eq_dec N.eq_dec s lit then true else false
  | None => false
  end.

(** What the client can throw.  An [AxiosError] carries [error.message] and,
    when the server answered, [error.response] as the pair of its status
    and of [JSON.stringify(error.response.data)], both already rendered. *)
Inductive Exn :=
| Error (message : jsstring)
| TypeError
| URIError
| AxiosError (message : jsstring) (response : option (jsstring * jsstring)).

(** [Object.values(row)]: the member values of an object in enumeration
    order, the items of an array, the code units of a string, nothing for
    a boolean or a number, and a TypeError for [null]. *)
Definition objectValues (row : Json) : Exn + list Json :=
  match row with
  | JNull => inl TypeError
  | JBool _ | JNumber _ => inr []
  | JString s => inr (map (fun c => JString [c]) s)
  | JArray items => inr items
  | JObject members => inr (map snd members)
  end.

(** interface CatalogEntity; [path] and [children] may be missing from what
    the backend sends.  [tag], [type] and [containerType] are never read by
    the client and are left out. *)
#[warnings="-register-all"]
Inductive CatalogEntity := mkEntity {
  entityId : jsstring;
  path : option (list jsstring);
  children : option (list CatalogEntity)
}.

(** The [data] member of a root catalog response, when there is one: an
    array of entities, or some other truthy object. *)
Inductive CatalogData :=
| DataArray (entities : list CatalogEntity)
| DataObject (entity : CatalogEntity).

(** interface TableSchema *)
Record TableSchema := { name : jsstring; type : jsstring }.

(** A result row, [any] in the source: whatever the backend put in the
    [rows] array. *)
Definition Row := Json.

(** [response.data] seen through the members the client reads; every
    member may be missing. *)
Record ResponseData := {
  data_id : option jsstring;
  data_jobState : option jsstring;
  data_errorMessage : option jsstring;
  data_queryError : option jsstring;
  data_schema : option (list TableSchema);
  data_rowCount : option Z;
  data_rows : option (list Row);
  asEntity : CatalogEntity;
  data_data : option CatalogData
}.

(** interface QueryResult *)
Record QueryResult := {
  rowCount : Z;
  schema : list TableSchema;
  rows : list Row
}.

(** interface ExplainResult *)
Record ExplainResult := { text : jsstring }.

(** [client.get(url, {params: {limit}})] and [client.post(url, {sql})]. *)
Inductive Request :=
| GET (url : jsstring) (limit : option Z)
| POST (url : jsstring) (sql : jsstring).

Inductive Reply :=
| Ok (d : ResponseData)
| Reject (message : jsstring) (response : option (jsstring * jsstring)).

(** What one call does, in order. *)
Inductive Event :=
| Exchange (req : Request) (rep : Reply)
| Sleep (ms : N).

(* ================================================================== *)
(** ** The effect monad: a backend, a trace, exceptions *)
(* ================================================================== *)

Inductive Outcome (A : Type) :=
| Return (a : A)
| Throw (e : Exn)
| OutOfFuel.

Arguments Return {A} a.
Arguments Throw {A} e.
Arguments OutOfFuel {A}.

Section Http.

(** The backend is any deterministic machine answering requests. *)
Variable B : Type.
Variable serve : B -> Request -> Reply * B.

Record World := { backend : B; trace : list Event }.

Definition M (A : Type) := World -> Outcome A * World.

Definition ret {A} (a : A) : M A := fun w => (Return a, w).

Definition bind {A C} (m : M A) (k : A -> M C) : M C :=
  fun w =>
    match m w with
    | (Return a, w') => k a w'
    | (Throw e, w') => (Throw e, w')
    | (OutOfFuel, w') => (OutOfFuel, w')
    end.

Definition throw {A} (e : Exn) : M A := fun w => (Throw e, w).

Definition outOfFuel {A} : M A := fun w => (OutOfFuel, w).

(** [try { m } catch (error) { handler(error) }] *)
Definition tryCatch {A} (m : M A) (handler : Exn -> M A) : M A :=
  fun w =>
    match m w with
    | (Throw e, w') => handler e w'
    | r => r
    end.

Definition emit (ev : Event) (w : World) : World :=
  {| backend := backend w; trace := trace w ++ [ev] |}.

(** One awaited axios call. *)
Definition request (req : Request) : M ResponseData :=
  fun w =>
    let (rep, b') := serve (backend w) req in
    let w' := {| backend := b'; trace := trace w ++ [Exchange req rep] |} in
    match rep with
    | Ok d => (Return d, w')
    | Reject message response => (Throw (AxiosError message response), w')
    end.

(** [await new Promise(resolve => setTimeout(resolve, ms))] *)
Definition sleep (ms : N) : M unit := fun w => (Return tt, emit (Sleep ms) w).

(** A call started on a backend in state [b], with an empty trace. *)
Definition run {A} (m : M A) (b : B) : Outcome A * World :=
  m {| backend := b; trace := [] |}.

End Http.

Arguments ret {B A} a.
Arguments throw {B A} e.
Arguments outOfFuel {B A}.
Arguments bind {B A C} m k.
Arguments tryCatch {B A} m handler.
Arguments sleep {B} ms.
Arguments backend {B} w.
Arguments trace {B} w.

Declare Scope http_scope.
Notation "x <- m ;; k" := (bind m (fun x => k))
  (at level 100, m at next level, right associativity) : http_scope.
Notation "m ;;; k" := (bind m (fun _ => k))
  (at level 100, right associativity) : http_scope.

Local Open Scope http_scope.

(* ================================================================== *)
(** ** class DremioClient *)
(* ================================================================== *)

Module DremioClient.

(** [escapeIdentifier(identifier)]: every double quote of [identifier] is
    replaced by two of them (the global [replace]), and the whole is put
    between two double quotes. *)
Definition escapeIdentifier (identifier : jsstring) : jsstring :=
  let escaped :=
    flat_map (fun c => if N.eqb c DQUOTE then [DQUOTE; DQUOTE] else [c]) identifier in
  [DQUOTE] ++ escaped ++ [DQUOTE].

(** The callback [part => this.escapeIdentifier(part)]: a value without a
    [replace] method makes the call throw a TypeError. *)
Definition escapePart (part : jsval) : Exn + jsstring :=
  match part with
  | VString s => inr (escapeIdentifier s)
  | _ => inl TypeError
  end.

(** [Array.prototype.map] for a callback that may throw: the first throw
    ends the traversal. *)
Fixpoint mapThrowing {A C} (f : A -> Exn + C) (l : list A) : Exn + list C :=
  match l with
  | [] => inr []
  | a :: rest =>
    match f a with
    | inl e => inl e
    | inr c =>
      match mapThrowing f rest with
      | inl e => inl e
      | inr cs => inr (c :: cs)
      end
    end
  end.

(** [buildTableReference(tablePath)]; [None] is a missing argument. *)
Definition buildTableReference (tablePath : option (list jsval)) : Exn + jsstring :=
  match tablePath with
  | None => inl (Error (js "Table path cannot be empty"))
  | Some tablePath =>
    if (List.length tablePath =? 0)%nat then inl (Error (js "Table path cannot be empty"))
    else if existsb (fun component => negb (truthy component) || negb (isString component))
                    tablePath
    then inl (Error (js "Invalid table path component"))
    else
      match mapThrowing escapePart tablePath with
      | inl e => inl e
      | inr parts => inr (join [DOT] parts)
      end
  end.

(** The callback [p => encodeURIComponent(p)]. *)
Definition encodeSegment (p : jsstring) : Exn + jsstring :=
  match encodeURIComponent p with
  | Some e => inr e
  | None => inl URIError
  end.

(** The URL computed by [getCatalog(path)], before the request is sent. *)
Definition catalogUrl (path : option (list jsstring)) : Exn + jsstring :=
  let url := js "/api/v3/catalog" in
  match path with
  | Some (p :: ps) =>
    match mapThrowing encodeSegment (p :: ps) with
    | inl e => inl e
    | inr encoded =>
      let encodedPath := join [SLASH] encoded in
      inr (js "/api/v3/catalog/" ++ encodedPath)
    end
  | _ => inr url
  end.

Definition maxAttempts : nat := 30.

(** The loop condition of [executeQuery]. *)
Definition isInFlight (jobState : option jsstring) : bool :=
  strictEq jobState (js "RUNNING") || strictEq jobState (js "STARTING")
  || strictEq jobState (js "ENQUEUED").

Definition isFailure (jobState : option jsstring) : bool :=
  strictEq jobState (js "FAILED") || strictEq jobState (js "CANCELED").

(** The message built when a poll reports FAILED or CANCELED. *)
Definition failureMessage (jobResponse : ResponseData) : jsstring :=
  let errorMessage := orElse (data_errorMessage jobResponse) (js "Unknown error") in
  let queryError := orElse (data_queryError jobResponse) [] in
  js "Query failed with state: " ++ interpolate (data_jobState jobResponse)
  ++ js ". Error: " ++ errorMessage
  ++ match queryError with
     | [] => []
     | _ => js ". Details: " ++ queryError
     end.

(** The callback [row => Object.values(row).join(' ')]. *)
Definition flattenRow (row : Row) : Exn + jsstring :=
  match objectValues row with
  | inl e => inl e
  | inr values => inr (join [SPACE] (map joinElement values))
  end.

(** [rows.map(row => Object.values(row).join(' ')).join('\n')] *)
Definition flattenRows (rows : list Row) : Exn + jsstring :=
  match mapThrowing flattenRow rows with
  | inl e => inl e
  | inr lines => inr (join [LF] lines)
  end.

Section WithBackend.

Variable B : Type.
Variable serve : B -> Request -> Reply * B.

(** The platform's [String.prototype.toLowerCase]. *)
Variable toLowerCase : jsstring -> jsstring.

Abbreviation M := (M B).
Abbreviation request := (request serve).

Definition getCatalog (path : option (list jsstring)) : M ResponseData :=
  match catalogUrl path with
  | inl e => throw e
  | inr url => request (GET url None)
  end.

(** The [while] loop of [executeQuery], entered with the current
    [jobState] and [attempts]; [fuel] bounds the iterations of the model. *)
Fixpoint pollLoop (fuel : nat) (jobId : option jsstring)
         (jobState : option jsstring) (attempts : nat) : M (option jsstring) :=
  match fuel with
  | O => outOfFuel
  | S fuel' =>
    if isInFlight jobState then
      if (maxAttempts <=? attempts)%nat then throw (Error (js "Query timeout"))
      else
        sleep 1000 ;;;
        jobResponse <- request (GET (js "/api/v3/job/" ++ interpolate jobId) None) ;;
        let jobState := data_jobState jobResponse in
        if isFailure jobState then throw (Error (failureMessage jobResponse))
        else pollLoop fuel' jobId jobState (S attempts)
    else ret jobState
  end.

(** The [try] block of [executeQuery]. *)
Definition executeQueryBody (fuel : nat) (sql : jsstring) (maxRows : option Z)
  : M QueryResult :=
  let maxRows := match maxRows with Some n => n | None => 500%Z end in
  let limitedMaxRows := Z.min maxRows 500 in
  response <- request (POST (js "/api/v3/sql") sql) ;;
  let jobId := data_id response in
  jobState <- pollLoop fuel jobId (Some (js "RUNNING")) 0 ;;
  if negb (strictEq jobState (js "COMPLETED")) then
    throw (Error (js "Query failed with state: " ++ interpolate jobState))
  else
    resultsResponse <-
      request (GET (js "/api/v3/job/" ++ interpolate jobId ++ js "/results")
                   (Some limitedMaxRows)) ;;
    let schema :=
      match data_schema resultsResponse with
      | Some fields => map (fun field => {| name := name field; type := type field |}) fields
      | None => []
      end in
    ret {| rowCount := match data_rowCount resultsResponse with
                         | Some n => n
                         | None => 0%Z
                         end;
           schema := schema;
           rows := match data_rows resultsResponse with
                     | Some r => r
                     | None => []
                     end |}.

(** The [catch] block of [executeQuery]. *)
Definition executeQueryCatch {A} (error : Exn) : M A :=
  match error with
  | AxiosError message (Some (status, body)) =>
    throw (Error (js "Query failed: " ++ message ++ js ". Status: " ++ status
                  ++ js ". Data: " ++ body))
  | _ => throw error
  end.

Definition executeQueryFuel (fuel : nat) (sql : jsstring) (maxRows : option Z)
  : M QueryResult :=
  tryCatch (executeQueryBody fuel sql maxRows) executeQueryCatch.

(** [executeQuery(sql, maxRows = 500)].  The loop is given one iteration
    more than [maxAttempts]; [pollLoop_fuel] shows that this is all it can
    ever use. *)
Definition executeQuery (sql : jsstring) (maxRows : option Z) : M QueryResult :=
  executeQueryFuel (S maxAttempts) sql maxRows.

Definition getTableSchema (tablePath : option (list jsval)) : M (list TableSchema) :=
  match buildTableReference tablePath with
  | inl e => throw e
  | inr tableRef =>
    let query := js "SELECT * FROM " ++ tableRef ++ js " LIMIT 0" in
    result <- executeQuery query None ;;
    ret (schema result)
  end.

Definition previewTable (tablePath : option (list jsval)) : M QueryResult :=
  match buildTableReference tablePath with
  | inl e => throw e
  | inr tableRef =>
    let query := js "SELECT * FROM " ++ tableRef ++ js " LIMIT 10" in
    executeQuery query (Some 10%Z)
  end.

(** The test [name.toLowerCase().includes(searchTerm.toLowerCase())]
    on [entity.path[entity.path.length - 1] || '']. *)
Definition nameMatches (searchTerm : jsstring) (path : list jsstring) : bool :=
  let name := last path [] in
  includes (toLowerCase name) (toLowerCase searchTerm).

(** The closure [searchRecursive]; the array [results] it pushes to is
    threaded through. *)
Fixpoint searchRecursive (searchTerm : jsstring) (entity : CatalogEntity)
         (results : list CatalogEntity) : list CatalogEntity :=
  let 'mkEntity _ path children := entity in
  let results :=
    match path with
    | Some (seg :: segs) =>
      if nameMatches searchTerm (seg :: segs) then results ++ [entity] else results
    | _ => results
    end in
  match children with
  | Some children =>
    (fix each (children : list CatalogEntity) (results : list CatalogEntity) :=
       match children with
       | [] => results
       | child :: rest => each rest (searchRecursive searchTerm child results)
       end) children results
  | None => results
  end.

(** [for (const entity of catalogData) searchRecursive(entity)] *)
Fixpoint searchEach (searchTerm : jsstring) (catalogData : list CatalogEntity)
         (results : list CatalogEntity) : list CatalogEntity :=
  match catalogData with
  | [] => results
  | entity :: rest => searchEach searchTerm rest (searchRecursive searchTerm entity results)
  end.

(** The traversal of [searchCatalog] once the root catalog has arrived. *)
Definition searchRoot (searchTerm : jsstring) (rootCatalog : ResponseData)
  : list CatalogEntity :=
  let results := [] in
  match data_data rootCatalog with
  | Some (DataArray entities) => searchEach searchTerm entities results
  | Some (DataObject entity) => searchRecursive searchTerm entity results
  | None => searchEach searchTerm [asEntity rootCatalog] results
  end.

Definition searchCatalog (searchTerm : jsstring) : M (list CatalogEntity) :=
  rootCatalog <- getCatalog None ;;
  ret (searchRoot searchTerm rootCatalog).

Definition explainQuery (sql : jsstring) : M ExplainResult :=
  if negb (isSelectQuery sql) then
    throw (Error (js "Only SELECT queries can be explained"))
  else
    let explainSql := js "EXPLAIN PLAN FOR " ++ sql in
    result <- executeQuery explainSql None ;;
    match flattenRows (rows result) with
    | inl e => throw e
    | inr text => ret {| text := text |}
    end.

End WithBackend.

End DremioClient.

(* ================================================================== *)
(** ** The earlier revision of the client

    [src/dremio-client.ts] as it stood before identifier escaping,
    per-segment catalog encoding, the row-limit clamp and the failure
    details were added.  Only kept to state how the two revisions differ. *)
(* ================================================================== *)

Module Legacy.

(** The URL computed by the earlier [getCatalog(path)]: the segments are
    joined first and the whole is encoded. *)
Definition catalogUrl (path : option (list jsstring)) : Exn + jsstring :=
  let pathStr := match path with Some path => join [SLASH] path | None => [] end in
  match pathStr with
  | [] => inr (js "/api/v3/catalog")
  | _ =>
    match encodeURIComponent pathStr with
    | Some e => inr (js "/api/v3/catalog/" ++ e)
    | None => inl URIError
    end
  end.

(** The query text of the earlier [getTableSchema(tablePath)]. *)
Definition schemaQuery (tablePath : list jsstring) : jsstring :=
  let pathStr := join [DOT] tablePath in
  js "SELECT * FROM " ++ pathStr ++ js " LIMIT 0".

Section WithBackend.

Variable B : Type.
Variable serve : B -> Request -> Reply * B.
Variable toLowerCase : jsstring -> jsstring.

Abbreviation M := (M B).
Abbreviation request := (request serve).

Fixpoint pollLoop (fuel : nat) (jobId : option jsstring)
         (jobState : option jsstring) (attempts : nat) : M (option jsstring) :=
  match fuel with
  | O => outOfFuel
  | S fuel' =>
    if DremioClient.isInFlight jobState then
      if (DremioClient.maxAttempts <=? attempts)%nat then throw (Error (js "Query timeout"))
      else
        sleep 1000 ;;;
        jobResponse <- request (GET (js "/api/v3/job/" ++ interpolate jobId) None) ;;
        let jobState := data_jobState jobResponse in
        pollLoop fuel' jobId jobState (S attempts)
    else ret jobState
  end.

(** The earlier [executeQuery(sql, maxRows = 1000)]: no clamp, no
    [try]/[catch]. *)
Definition executeQuery (sql : jsstring) (maxRows : option Z) : M QueryResult :=
  let maxRows := match maxRows with Some n => n | None => 1000%Z end in
  response <- request (POST (js "/api/v3/sql") sql) ;;
  let jobId := data_id response in
  jobState <- pollLoop (S DremioClient.maxAttempts) jobId (Some (js "RUNNING")) 0 ;;
  if negb (strictEq jobState (js "COMPLETED")) then
    throw (Error (js "Query failed with state: " ++ interpolate jobState))
  else
    resultsResponse <-
      request (GET (js "/api/v3/job/" ++ interpolate jobId ++ js "/results")
                   (Some maxRows)) ;;
    let schema :=
      match data_schema resultsResponse with
      | Some fields => map (fun field => {| name := name field; type := type field |}) fields
      | None => []
      end in
    ret {| rowCount := match data_rowCount resultsResponse with
                       | Some n => n
                       | None => 0%Z
                       end;
           schema := schema;
           rows := match data_rows resultsResponse with
                   | Some r => r
                   | None => []
                   end |}.

(** The earlier [searchRecursive]: [entity.path.length] is read without a
    check, which throws when [path] is missing. *)
Fixpoint searchRecursive (searchTerm : jsstring) (entity : CatalogEntity)
         (results : list CatalogEntity) : Exn + list CatalogEntity :=
  let 'mkEntity _ path children := entity in
  match path with
  | None => inl TypeError
  | Some path =>
    let results :=
      if DremioClient.nameMatches toLowerCase searchTerm path
      then results ++ [entity] else results in
    match children with
    | Some children =>
      (fix each (children : list CatalogEntity) (results : list CatalogEntity) :=
         match children with
         | [] => inr results
         | child :: rest =>
           match searchRecursive searchTerm child results with
           | inl e => inl e
           | inr results => each rest results
           end
         end) children results
    | None => inr results
    end
  end.

Definition searchCatalog (searchTerm : jsstring) : M (list CatalogEntity) :=
  rootCatalog <-
    match catalogUrl None with
    | inl e => throw e
    | inr url => request (GET url None)
    end ;;
  match searchRecursive searchTerm (asEntity rootCatalog) [] with
  | inl e => throw e
  | inr results => ret results
  end.

(** The earlier [explainQuery(sql)]: no validation. *)
Definition explainQuery (sql : jsstring) : M ExplainResult :=
  let explainSql := js "EXPLAIN PLAN FOR " ++ sql in
  result <- executeQuery explainSql None ;;
  match DremioClient.flattenRows (rows result) with
  | inl e => throw e
  | inr text => ret {| text := text |}
  end.

End WithBackend.

End Legacy.

(* ================================================================== *)
(** ** The contracts, as the specification words them *)
(* ================================================================== *)

Module Contract.

(** Removal of every [--] comment up to the end of its line, the end of
    the text being the end of its last line; the line feed stays. *)
Fixpoint lineScan (inComment : bool) (s : jsstring) : jsstring :=
  match s with
  | [] => []
  | c :: t =>
    if inComment then
      if N.eqb c LF then LF :: lineScan false t else lineScan true t
    else
      match t with
      | d :: _ =>
        if N.eqb c DASH && N.eqb d DASH then lineScan true t
        else c :: lineScan false t
      | [] => [c]
      end
  end.

(** Section 4.1: strip leading and trailing whitespace, all [--] comments
    to the end of the line and all block comments (not nested); the text
    that remains begins with SELECT, in any case, followed by whitespace. *)
Definition isSelectQuery (sql : jsstring) : bool :=
  testSelect (trim (stripBlockComments (lineScan false (trim sql)))).

(** The same contract read as a lexer would: comments are recognised from
    left to right, so a [--] inside a block comment and a block opener
    inside a line comment open nothing. *)
Inductive Mode := Code | LineComment | BlockComment.

Fixpoint lexScan (mode : Mode) (s : jsstring) : jsstring :=
  match s with
  | [] => []
  | c :: t =>
    match mode with
    | LineComment =>
      if N.eqb c LF then LF :: lexScan Code t else lexScan LineComment t
    | BlockComment =>
      match t with
      | d :: t' =>
        if N.eqb c STAR && N.eqb d SLASH then lexScan Code t'
        else lexScan BlockComment t
      | [] => []
      end
    | Code =>
      match t with
      | d :: t' =>
        if N.eqb c DASH && N.eqb d DASH then lexScan LineComment t
        else if N.eqb c SLASH && N.eqb d STAR && hasBlockEnd t'
             then lexScan BlockComment t'
             else c :: lexScan Code t
      | [] => [c]
      end
    end
  end.

Definition isSelectQueryLexical (sql : jsstring) : bool :=
  testSelect (trim (lexScan Code (trim sql))).

(** Every [--] of the text is followed, somewhere, by a line feed. *)
Fixpoint lineCommentsTerminated (s : jsstring) : bool :=
  match s with
  | [] => true
  | c :: t =>
    match t with
    | d :: t' =>
      (negb (N.eqb c DASH && N.eqb d DASH) || hasNewline t')
      && lineCommentsTerminated t
    | [] => true
    end
  end.

(** Collapse each doubled double quote back to a single one. *)
Fixpoint collapseQuotes (s : jsstring) : jsstring :=
  match s with
  | [] => []
  | c :: t =>
    match t with
    | d :: t' =>
      if N.eqb c DQUOTE && N.eqb d DQUOTE then DQUOTE :: collapseQuotes t'
      else c :: collapseQuotes t
    | [] => [c]
    end
  end.

(** Strip the outer double quotes, then collapse the doubled ones. *)
Definition unescapeIdentifier (quoted : jsstring) : option jsstring :=
  match quoted with
  | q :: t =>
    match rev t with
    | q' :: inner =>
      if N.eqb q DQUOTE && N.eqb q' DQUOTE then Some (collapseQuotes (rev inner))
      else None
    | [] => None
    end
  | [] => None
  end.

(** Every entity of a tree, parents before children, children in order. *)
Fixpoint preorder (entity : CatalogEntity) : list CatalogEntity :=
  entity ::
  match children entity with
  | Some children => flat_map preorder children
  | None => []
  end.

End Contract.

(* ================================================================== *)
(** ** Reading traces *)
(* ================================================================== *)

Module Trace.

Import DremioClient.

Definition statusUrl (jobId : option jsstring) : jsstring :=
  js "/api/v3/job/" ++ interpolate jobId.

Definition resultsUrl (jobId : option jsstring) : jsstring :=
  js "/api/v3/job/" ++ interpolate jobId ++ js "/results".

(** The events of a run of polls, one reply per poll. *)
Definition polls (jobId : option jsstring) (replies : list Reply) : list Event :=
  flat_map (fun rep => [Sleep 1000; Exchange (GET (statusUrl jobId) None) rep]) replies.

Definition isHttpRequest (ev : Event) : bool :=
  match ev with
  | Exchange _ _ => true
  | Sleep _ => false
  end.

(** A GET without a [limit] parameter: within [executeQuery], a job-status
    fetch. *)
Definition isStatusFetch (ev : Event) : bool :=
  match ev with
  | Exchange (GET _ None) _ => true
  | _ => false
  end.


Definition count (p : Event -> bool) (tr : list Event) : nat :=
  List.length (filter p tr).

(** Every job-status fetch of the trace was answered with an in-flight
    state. *)
Definition pollsStayInFlight (tr : list Event) : bool :=
  forallb (fun ev =>
             match ev with
             | Exchange (GET _ None) (Ok d) => isInFlight (data_jobState d)
             | Exchange (GET _ None) (Reject _ _) => false
             | _ => true
             end) tr.

(** Every results fetch of the trace asks for at most [cap] rows. *)
Definition limitsWithin (cap : Z) (tr : list Event) : bool :=
  forallb (fun ev =>
             match ev with
             | Exchange (GET _ (Some limit)) _ => (limit <=? cap)%Z
             | _ => true
             end) tr.

(** The [while] loop of [executeQuery] as a relation between the state it
    is entered with, the replies its polls receive, and how it ends. *)
Inductive Polling : option jsstring -> nat -> list Reply ->
                    Outcome (option jsstring) -> Prop :=
| poll_exit st att :
    isInFlight st = false ->
    Polling st att [] (Return st)
| poll_timeout st att :
    isInFlight st = true -> maxAttempts <= att ->
    Polling st att [] (Throw (Error (js "Query timeout")))
| poll_reject st att message response :
    isInFlight st = true -> att < maxAttempts ->
    Polling st att [Reject message response] (Throw (AxiosError message response))
| poll_failed st att d :
    isInFlight st = true -> att < maxAttempts ->
    isFailure (data_jobState d) = true ->
    Polling st att [Ok d] (Throw (Error (failureMessage d)))
| poll_again st att d replies o :
    isInFlight st = true -> att < maxAttempts ->
    isFailure (data_jobState d) = false ->
    Polling (data_jobState d) (S att) replies o ->
    Polling st att (Ok d :: replies) o.

(** The trace opens with an accepted job submission. *)
Definition jobSubmitted (tr : list Event) : bool :=
  match tr with
  | Exchange (POST _ _) (Ok _) :: _ => true
  | _ => false
  end.

(** The row limit [executeQuery] sends for a requested [maxRows]. *)
Definition clamp (maxRows : option Z) : Z :=
  Z.min (match maxRows with Some n => n | None => 500%Z end) 500.

(** A poll answered with an in-flight state. *)
Definition repliedInFlight (rep : Reply) : bool :=
  match rep with
  | Ok d => isInFlight (data_jobState d)
  | Reject _ _ => false
  end.

(** What the [catch] block of [executeQuery] rethrows for [error]. *)
Definition caught (error : Exn) : Exn :=
  match error with
  | AxiosError message (Some (status, body)) =>
    Error (js "Query failed: " ++ message ++ js ". Status: " ++ status
           ++ js ". Data: " ++ body)
  | _ => error
  end.

(** The [QueryResult] built from a results page. *)
Definition resultOf (resultsResponse : ResponseData) : QueryResult :=
  {| rowCount := match data_rowCount resultsResponse with
                 | Some n => n
                 | None => 0%Z
                 end;
     schema := match data_schema resultsResponse with
               | Some fields =>
                 map (fun field => {| name := name field; type := type field |}) fields
               | None => []
               end;
     rows := match data_rows resultsResponse with
             | Some r => r
             | None => []
             end |}.

(** One call of [executeQuery(sql, maxRows)] with [limit] the clamped
    row limit: the trace it leaves and how it ends. *)
Inductive QueryRun (sql : jsstring) (limit : Z) :
  list Event -> Outcome QueryResult -> Prop :=
| run_submit_rejected message response :
    QueryRun sql limit
      [Exchange (POST (js "/api/v3/sql") sql) (Reject message response)]
      (Throw (caught (AxiosError message response)))
| run_poll_threw d0 replies e :
    Polling (Some (js "RUNNING")) 0 replies (Throw e) ->
    QueryRun sql limit
      (Exchange (POST (js "/api/v3/sql") sql) (Ok d0) :: polls (data_id d0) replies)
      (Throw (caught e))
| run_not_completed d0 replies st :
    Polling (Some (js "RUNNING")) 0 replies (Return st) ->
    strictEq st (js "COMPLETED") = false ->
    QueryRun sql limit
      (Exchange (POST (js "/api/v3/sql") sql) (Ok d0) :: polls (data_id d0) replies)
      (Throw (Error (js "Query failed with state: " ++ interpolate st)))
| run_results_rejected d0 replies st message response :
    Polling (Some (js "RUNNING")) 0 replies (Return st) ->
    strictEq st (js "COMPLETED") = true ->
    QueryRun sql limit
      (Exchange (POST (js "/api/v3/sql") sql) (Ok d0)
       :: polls (data_id d0) replies
       ++ [Exchange (GET (resultsUrl (data_id d0)) (Some limit)) (Reject message response)])
      (Throw (caught (AxiosError message response)))
| run_completed d0 replies st d :
    Polling (Some (js "RUNNING")) 0 replies (Return st) ->
    strictEq st (js "COMPLETED") = true ->
    QueryRun sql limit
      (Exchange (POST (js "/api/v3/sql") sql) (Ok d0)
       :: polls (data_id d0) replies
       ++ [Exchange (GET (resultsUrl (data_id d0)) (Some limit)) (Ok d)])
      (Return (resultOf d)).

(** A table path segment that [buildTableReference] accepts: a non-empty
    string. *)
Definition validSegment (component : jsval) : bool :=
  truthy component && isString component.

(** The entities a root catalog response holds, in traversal order. *)
Definition entitiesOf (rootCatalog : ResponseData) : list CatalogEntity :=
  match data_data rootCatalog with
  | Some (DataArray entities) => flat_map Contract.preorder entities
  | Some (DataObject entity) => Contract.preorder entity
  | None => Contract.preorder (asEntity rootCatalog)
  end.

(** An entity with a non-empty path whose last segment contains the term,
    case-insensitively. *)
Definition isMatch (toLowerCase : jsstring -> jsstring) (searchTerm : jsstring)
           (entity : CatalogEntity) : bool :=
  match path entity with
  | Some (seg :: segs) =>
    includes (toLowerCase (last (seg :: segs) [])) (toLowerCase searchTerm)
  | _ => false
  end.

End Trace.

(* ================================================================== *)
(** ** Backends that complete a job *)
(* ================================================================== *)

Module Script.

Import DremioClient Trace.






End Script.

(* ================================================================== *)
(** ** Sample backends and data *)
(* ================================================================== *)

Module Sample.

Local Open Scope N_scope.

(** Lower-casing of the ASCII letters. *)
Definition asciiLower (s : jsstring) : jsstring :=
  map (fun c => if (65 <=? c) && (c <=? 90) then c + 32 else c) s.

Definition noEntity : CatalogEntity := mkEntity [] None None.

Definition emptyData : ResponseData :=
  {| data_id := None; data_jobState := None; data_errorMessage := None;
     data_queryError := None; data_schema := None; data_rowCount := None;
     data_rows := None; asEntity := noEntity; data_data := None |}.

Definition submitted (jobId : jsstring) : ResponseData :=
  {| data_id := Some jobId; data_jobState := None; data_errorMessage := None;
     data_queryError := None; data_schema := None; data_rowCount := None;
     data_rows := None; asEntity := noEntity; data_data := None |}.

Definition jobStatus (state : jsstring) (message detail : option jsstring) : ResponseData :=
  {| data_id := None; data_jobState := Some state; data_errorMessage := message;
     data_queryError := detail; data_schema := None; data_rowCount := None;
     data_rows := None; asEntity := noEntity; data_data := None |}.

Definition resultPage (fields : list TableSchema) (rowCount : Z) (rows : list Row)
  : ResponseData :=
  {| data_id := None; data_jobState := None; data_errorMessage := None;
     data_queryError := None; data_schema := Some fields;
     data_rowCount := Some rowCount; data_rows := Some rows;
     asEntity := noEntity; data_data := None |}.

Definition catalogRoot (root : CatalogEntity) (listing : option CatalogData)
  : ResponseData :=
  {| data_id := None; data_jobState := None; data_errorMessage := None;
     data_queryError := None; data_schema := None; data_rowCount := None;
     data_rows := None; asEntity := root; data_data := listing |}.

(** A backend that plays a fixed script of replies, whatever is asked. *)
Definition scripted (script : list Reply) (_ : Request) : Reply * list Reply :=
  match script with
  | rep :: rest => (rep, rest)
  | [] => (Reject (js "Network Error") None, [])
  end.

(** A backend whose job never leaves RUNNING. *)
Definition stuck (_ : unit) (req : Request) : Reply * unit :=
  match req with
  | POST _ _ => (Ok (submitted (js "job-1")), tt)
  | GET _ _ => (Ok (jobStatus (js "RUNNING") None None), tt)
  end.

(** A backend that ignores the [limit] parameter and serves three rows. *)
Definition threeRows : list Row :=
  [JObject [(js "n", JNumber (js "1"))]; JObject [(js "n", JNumber (js "2"))];
   JObject [(js "n", JNumber (js "3"))]].

Definition overServing : list Reply :=
  [Ok (submitted (js "job-1"));
   Ok (jobStatus (js "COMPLETED") None None);
   Ok (resultPage [{| name := js "n"; type := js "INTEGER" |}] 3 threeRows)].

(** A plan of two rows, with a cell of each kind, served for a job that is
    polled once in flight and then COMPLETED. *)
Definition planRows : list Row :=
  [JObject [(js "op", JString (js "Scan")); (js "rows", JNumber (js "1e+21"));
            (js "cost", JNumber (js "1.5")); (js "note", JNull)];
   JObject [(js "op", JString (js "Project")); (js "ok", JBool true);
            (js "cols", JArray [JString (js "a"); JNull; JNumber (js "2")]);
            (js "meta", JObject [])]].

Definition planned : list Reply :=
  [Ok (submitted (js "job-1"));
   Ok (jobStatus (js "RUNNING") None None);
   Ok (jobStatus (js "COMPLETED") None None);
   Ok (resultPage [] 2 planRows)].

(** A job that fails at its second poll. *)
Definition failing : list Reply :=
  [Ok (submitted (js "job-1"));
   Ok (jobStatus (js "RUNNING") None None);
   Ok (jobStatus (js "FAILED") (Some (js "Table not found")) (Some (js "line 1")))].

(** A small catalog: one entity without a path, one with an empty path. *)
Definition orders : CatalogEntity :=
  mkEntity (js "3") (Some [js "sales"; js "Orders"]) None.

Definition sales : CatalogEntity :=
  mkEntity (js "2") (Some [js "sales"])
           (Some [orders; mkEntity (js "4") None None; mkEntity (js "5") (Some []) None]).

Definition listing : ResponseData :=
  catalogRoot noEntity (Some (DataArray [sales; mkEntity (js "6") (Some [js "border"]) None])).

End Sample.

(* ================================================================== *)
(** ** Reading a table reference back *)
(* ================================================================== *)

Module Sql.

(** A reader of dotted, double-quoted identifiers as SQL lexes them: inside
    the quotes two double quotes stand for one, a single one closes the
    identifier, and a dot between two identifiers separates them. *)
Inductive LexState := AtStart | InIdentifier | AfterQuote.

(** [done] holds the identifiers read so far and [current] the code units
    of the one being read, both most recent first. *)
Fixpoint readIdentifiers (state : LexState) (done : list jsstring)
         (current : jsstring) (s : jsstring) : option (list jsstring) :=
  match s with
  | [] =>
    match state with
    | AfterQuote => Some (rev (rev current :: done))
    | _ => None
    end
  | c :: t =>
    match state with
    | AtStart =>
      if N.eqb c DQUOTE then readIdentifiers InIdentifier done [] t else None
    | InIdentifier =>
      if N.eqb c DQUOTE then readIdentifiers AfterQuote done current t
      else readIdentifiers InIdentifier done (c :: current) t
    | AfterQuote =>
      if N.eqb c DQUOTE then readIdentifiers InIdentifier done (DQUOTE :: current) t
      else if N.eqb c DOT then readIdentifiers AtStart (rev current :: done) [] t
           else None
    end
  end.

Definition readTableReference (s : jsstring) : option (list jsstring) :=
  readIdentifiers AtStart [] [] s.

End Sql.

(* ================================================================== *)
(** ** More ways of reading strings and traces *)
(* ================================================================== *)

Module Measure.

Local Open Scope N_scope.

(** A code unit is a 16-bit value. *)
Definition wellFormed (s : jsstring) : bool := forallb (fun c => c <? 65536) s.

(** The code units a URL path may hold unescaped or as an escape: the
    unreserved ones, the percent sign and the slash. *)
Definition urlSafe (c : codeunit) : bool :=
  isUnreserved c || N.eqb c PERCENT || N.eqb c SLASH.

(** The milliseconds slept over a trace. *)
Fixpoint sleptMs (tr : list Event) : N :=
  match tr with
  | [] => 0
  | Sleep ms :: rest => ms + sleptMs rest
  | Exchange _ _ :: rest => sleptMs rest
  end.

(** Sleeps and status fetches come in adjacent pairs: every sleep lasts
    1000 ms and is immediately followed by a status fetch, and no status
    fetch comes without the sleep right before it. *)
Fixpoint paced (tr : list Event) : bool :=
  match tr with
  | [] => true
  | Sleep ms :: rest =>
    N.eqb ms 1000
    && match rest with
       | Exchange (GET _ None) _ :: rest' => paced rest'
       | _ => false
       end
  | Exchange (GET _ None) _ :: _ => false
  | _ :: rest => paced rest
  end.

(** A GET carrying a [limit] parameter: a results fetch. *)
Definition isResultsFetch (ev : Event) : bool :=
  match ev with
  | Exchange (GET _ (Some _)) _ => true
  | _ => false
  end.

(** The statements a trace submits. *)
Fixpoint submitted (tr : list Event) : list jsstring :=
  match tr with
  | [] => []
  | Exchange (POST _ sql) _ :: rest => sql :: submitted rest
  | _ :: rest => submitted rest
  end.

(** A statement the server may send: one [isSelectQuery] accepts, or the
    EXPLAIN of one. *)
Definition readOnly (sql : jsstring) : Prop :=
  isSelectQuery sql = true
  \/ exists inner, sql = js "EXPLAIN PLAN FOR " ++ inner /\ isSelectQuery inner = true.

Definition hasPath (entity : CatalogEntity) : bool :=
  match path entity with
  | Some _ => true
  | None => false
  end.

Definition hasNonEmptyPath (entity : CatalogEntity) : bool :=
  match path entity with
  | Some (_ :: _) => true
  | _ => false
  end.

(** The test of the earlier [searchRecursive]: the last segment of the
    path, or the empty string for an empty path. *)
Definition legacyMatch (toLowerCase : jsstring -> jsstring) (searchTerm : jsstring)
           (entity : CatalogEntity) : bool :=
  match path entity with
  | Some p => DremioClient.nameMatches toLowerCase searchTerm p
  | None => false
  end.

(** What the earlier traversal yields over a list of entities: the
    matches appended to [results] when each entity has a path, a TypeError
    otherwise. *)
Definition legacyFound (toLowerCase : jsstring -> jsstring) (searchTerm : jsstring)
           (entities : list CatalogEntity) (results : list CatalogEntity)
  : Exn + list CatalogEntity :=
  if forallb hasPath entities
  then inr (results ++ filter (legacyMatch toLowerCase searchTerm) entities)
  else inl TypeError.

End Measure.

(* ================================================================== *)
(** ** Start-up and the client constructor *)
(* ================================================================== *)

Module Config.

(** The three environment variables index.js reads; [None] is unset. *)
Record Env := {
  DREMIO_URL : option jsstring;
  DREMIO_PAT : option jsstring;
  DREMIO_REJECT_UNAUTHORIZED : option jsstring
}.

(** interface DremioConfig *)
Record DremioConfig := {
  url : jsstring;
  pat : jsstring;
  rejectUnauthorized : option bool
}.

(** The axios configuration the constructor builds; [httpsAgent] is the
    [rejectUnauthorized] option of the custom agent, [None] when no agent
    is installed. *)
Record AxiosConfig := {
  baseURL : jsstring;
  Authorization : jsstring;
  ContentType : jsstring;
  httpsAgent : option bool
}.

(** [constructor(config)] of DremioClient. *)
Definition constructor (config : DremioConfig) : AxiosConfig :=
  {| baseURL := url config;
     Authorization := js "Bearer " ++ pat config;
     ContentType := js "application/json";
     httpsAgent := match rejectUnauthorized config with
                   | Some false => Some false
                   | _ => None
                   end |}.

Inductive Startup :=
| Exit (code : Z)
| Serving (axiosConfig : AxiosConfig).

(** The top of index.js: read the environment, leave with code 1 when the
    URL or the token is missing or empty, build the client otherwise. *)
Definition startup (env : Env) : Startup :=
  let rejectUnauthorized := negb (strictEq (DREMIO_REJECT_UNAUTHORIZED env) (js "false")) in
  match DREMIO_URL env, DREMIO_PAT env with
  | Some (u :: url), Some (p :: pat) =>
    Serving (constructor {| url := u :: url; pat := p :: pat;
                            rejectUnauthorized := Some rejectUnauthorized |})
  | _, _ => Exit 1
  end.

End Config.

(* ================================================================== *)
(** ** index.js: the tool handler *)
(* ================================================================== *)

Module Server.

(** [request.params.arguments] as the input schemas type it; every member
    may be missing.  [table_path] is [None] when missing or not an array. *)
Record ToolArguments := {
  arg_path : option (list jsstring);
  arg_table_path : option (list jsval);
  arg_sql : option jsstring;
  arg_max_rows : option Z;
  arg_search_term : option jsstring
}.

(** The tool result: the text of its single content item and [isError]. *)
Record ToolResponse := { content : jsstring; isError : bool }.

Definition sameString (a b : jsstring) : bool :=
  if list_eq_dec N.eq_dec a b then true else false.

(** [!field] for an optional string. *)
Definition missing (field : option jsstring) : bool :=
  match field with
  | Some (_ :: _) => false
  | _ => true
  end.

(** [Math.min(args?.max_rows || 1000, 1000)] *)
Definition requestedRows (max_rows : option Z) : Z :=
  Z.min (match max_rows with
         | Some n => if (n =? 0)%Z then 1000%Z else n
         | None => 1000%Z
         end) 1000.

Section WithBackend.

Variable B : Type.
Variable serve : B -> Request -> Reply * B.
Variable toLowerCase : jsstring -> jsstring.

(** [JSON.stringify(result, null, 2)] at the four types it is used at, and
    the message of the errors the engine itself raises. *)
Variable stringifyCatalog : ResponseData -> jsstring.
Variable stringifySchema : list TableSchema -> jsstring.
Variable stringifyResult : QueryResult -> jsstring.
Variable stringifyEntities : list CatalogEntity -> jsstring.
Variable nativeMessage : Exn -> jsstring.

Abbreviation M := (M B).

(** [error.message] *)
Definition messageOf (error : Exn) : jsstring :=
  match error with
  | Error message => message
  | AxiosError message _ => message
  | _ => nativeMessage error
  end.

Definition success (text : jsstring) : ToolResponse :=
  {| content := text; isError := false |}.

(** The [switch] of the CallTool handler. *)
Definition dispatch (name : jsstring) (args : ToolArguments) : M ToolResponse :=
  if sameString name (js "catalog_browse") then
    let path := arg_path args in
    result <- DremioClient.getCatalog serve path ;;
    ret (success (stringifyCatalog result))
  else if sameString name (js "schema_get") then
    match arg_table_path args with
    | None => throw (Error (js "table_path is required and must be an array"))
    | Some tablePath =>
      schema <- DremioClient.getTableSchema serve (Some tablePath) ;;
      ret (success (stringifySchema schema))
    end
  else if sameString name (js "sql_query") then
    if missing (arg_sql args) then throw (Error (js "sql is required"))
    else
      let sql := match arg_sql args with Some sql => sql | None => [] end in
      if negb (isSelectQuery sql) then throw (Error (js "Only SELECT queries are allowed"))
      else
        let maxRows := requestedRows (arg_max_rows args) in
        result <- DremioClient.executeQuery serve sql (Some maxRows) ;;
        ret (success (stringifyResult result))
  else if sameString name (js "table_preview") then
    match arg_table_path args with
    | None => throw (Error (js "table_path is required and must be an array"))
    | Some tablePath =>
      result <- DremioClient.previewTable serve (Some tablePath) ;;
      ret (success (stringifyResult result))
    end
  else if sameString name (js "search_catalog") then
    if missing (arg_search_term args) then throw (Error (js "search_term is required"))
    else
      let searchTerm := match arg_search_term args with Some t => t | None => [] end in
      results <- DremioClient.searchCatalog serve toLowerCase searchTerm ;;
      ret (success (stringifyEntities results))
  else if sameString name (js "explain_query") then
    if missing (arg_sql args) then throw (Error (js "sql is required"))
    else
      let sql := match arg_sql args with Some sql => sql | None => [] end in
      result <- DremioClient.explainQuery serve sql ;;
      ret (success (text result))
  else throw (Error (js "Unknown tool: " ++ name)).

(** The CallTool handler: the [switch] inside [try], every error turned
    into an error result. *)
Definition callTool (name : jsstring) (args : ToolArguments) : M ToolResponse :=
  tryCatch (dispatch name args)
           (fun error =>
              let errorMessage := messageOf error in
              ret {| content := js "Error: " ++ errorMessage; isError := true |}).

End WithBackend.

End Server.

(* ================================================================== *)
(** * Theorems *)
(* ================================================================== *)

Import DremioClient Trace.

Unset Implicit Arguments.

(** ** Identifier escaping *)

Section Escaping.

Local Abbreviation double :=
  (fun c : codeunit => if N.eqb c DQUOTE then [DQUOTE; DQUOTE] else [c]).

Lemma collapse_doubled (s : jsstring) :
  Contract.collapseQuotes (flat_map double s) = s.
Proof.
  induction s as [|c s IH]; [reflexivity|].
  cbn [flat_map].
  destruct (N.eqb_spec c DQUOTE) as [->|Hc].
  - cbn [app Contract.collapseQuotes]. rewrite N.eqb_refl. cbn. now rewrite IH.
  - cbn [app]. destruct s as [|c' s'].
    + reflexivity.
    + change (Contract.collapseQuotes (c :: flat_map double (c' :: s')))
        with (match flat_map double (c' :: s') with
              | d :: t' =>
                if N.eqb c DQUOTE && N.eqb d DQUOTE
                then DQUOTE :: Contract.collapseQuotes t'
                else c :: Contract.collapseQuotes (flat_map double (c' :: s'))
              | [] => [c]
              end).
      rewrite IH.
      destruct (flat_map double (c' :: s')) eqn:E.
      * cbn in E. destruct (N.eqb c' DQUOTE); discriminate.
      * destruct (N.eqb_spec c DQUOTE); [contradiction|reflexivity].
Qed.

Lemma unescape_escape (s : jsstring) :
  Contract.unescapeIdentifier (escapeIdentifier s) = Some s.
Proof.
  unfold escapeIdentifier, Contract.unescapeIdentifier.
  cbn [app]. rewrite rev_app_distr. cbn [rev app].
  rewrite N.eqb_refl. cbn [andb]. rewrite rev_involutive.
  f_equal. apply collapse_doubled.
Qed.

End Escaping.

(** C9.  [escapeIdentifier] is injective: distinct segments have distinct
    escaped forms; and stripping the outer double quotes of an escaped
    identifier, then collapsing each doubled double quote, gives the
    segment back. *)
Theorem escapeIdentifier_injective :
  forall a b : jsstring,
    Contract.unescapeIdentifier (escapeIdentifier a) = Some a
    /\ (a <> b -> escapeIdentifier a <> escapeIdentifier b).
Proof.
  intros a b. split; [apply unescape_escape|].
  intros Hab Heq. apply Hab.
  pose proof (unescape_escape a) as Ha.
  rewrite Heq, unescape_escape in Ha. now injection Ha.
Qed.

Lemma escapeIdentifier_injective_witness :
  Contract.unescapeIdentifier (escapeIdentifier [97; 34; 98]%N) = Some [97; 34; 98]%N
  /\ escapeIdentifier [97; 34; 98]%N <> escapeIdentifier [97; 34; 34; 98]%N.
Proof.
  destruct (escapeIdentifier_injective [97; 34; 98]%N [97; 34; 34; 98]%N) as [H1 H2].
  split; [exact H1|apply H2; discriminate].
Defined.

(** ** Table references *)

Lemma mapThrowing_strings (segs : list jsstring) :
  mapThrowing escapePart (map VString segs) = inr (map escapeIdentifier segs).
Proof.
  induction segs as [|s segs IH]; [reflexivity|].
  cbn. cbn in IH. now rewrite IH.
Qed.

Lemma valid_path_strings (tablePath : list jsval) :
  forallb validSegment tablePath = true ->
  exists segs, tablePath = map VString segs /\ Forall (fun s => s <> []) segs.
Proof.
  induction tablePath as [|v l IH]; intros H.
  - exists []. split; [reflexivity|constructor].
  - cbn in H. apply andb_true_iff in H as [Hv Hl].
    destruct (IH Hl) as (segs & -> & Hne).
    unfold validSegment in Hv. apply andb_true_iff in Hv as [Ht Hs].
    destruct v as [| |b|z|s|]; cbn in Hs; try discriminate Hs.
    exists (s :: segs). split; [reflexivity|].
    constructor; [|exact Hne]. intros ->. discriminate Ht.
Qed.

Lemma invalid_found (tablePath : list jsval) :
  existsb (fun component => negb (truthy component) || negb (isString component)) tablePath
  = negb (forallb validSegment tablePath).
Proof.
  induction tablePath as [|v l IH]; [reflexivity|].
  cbn. rewrite IH. unfold validSegment.
  destruct (truthy v), (isString v), (forallb _ l); reflexivity.
Qed.

(** C4.  [buildTableReference] fails on a missing or empty path and on
    every path holding a segment that is empty or not a string; on every
    other path it returns the segments, each escaped on its own (every
    double quote doubled, the whole between double quotes), joined with a
    dot. *)
Theorem buildTableReference_spec :
  buildTableReference None = inl (Error (js "Table path cannot be empty"))
  /\ buildTableReference (Some []) = inl (Error (js "Table path cannot be empty"))
  /\ (forall tablePath : list jsval,
         tablePath <> [] ->
         forallb validSegment tablePath = false ->
         buildTableReference (Some tablePath)
         = inl (Error (js "Invalid table path component")))
  /\ (forall tablePath : list jsval,
         tablePath <> [] ->
         forallb validSegment tablePath = true ->
         exists segs : list jsstring,
           tablePath = map VString segs
           /\ buildTableReference (Some tablePath)
              = inr (join [DOT] (map escapeIdentifier segs)))
  /\ (forall s : jsstring,
         escapeIdentifier s
         = [DQUOTE]
             ++ flat_map (fun c => if N.eqb c DQUOTE then [DQUOTE; DQUOTE] else [c]) s
             ++ [DQUOTE]).
Proof.
  repeat split.
  - intros tablePath Hne Hbad. unfold buildTableReference.
    destruct tablePath as [|v l]; [contradiction|].
    cbn [List.length Nat.eqb]. rewrite invalid_found, Hbad. reflexivity.
  - intros tablePath Hne Hok.
    destruct (valid_path_strings tablePath Hok) as (segs & -> & _).
    exists segs. split; [reflexivity|].
    unfold buildTableReference.
    destruct segs as [|s segs]; [contradiction|].
    cbn [map List.length Nat.eqb].
    change (VString s :: map VString segs) with (map VString (s :: segs)) in *.
    rewrite invalid_found, Hok. cbn [negb]. now rewrite mapThrowing_strings.
Qed.

Lemma buildTableReference_spec_witness :
  buildTableReference (Some [VString (js "s"); VNumber 7])
  = inl (Error (js "Invalid table path component"))
  /\ buildTableReference (Some [VString (js "s"); VString []])
     = inl (Error (js "Invalid table path component"))
  /\ buildTableReference (Some [VString (js "s"); VString (js "t")])
     = inr ([34] ++ js "s" ++ [34; 46; 34] ++ js "t" ++ [34])%N
  /\ escapeIdentifier [97; 34; 98]%N = [34; 97; 34; 34; 98; 34]%N.
Proof.
  destruct buildTableReference_spec as (_ & _ & Hbad & Hgood & Hesc).
  split; [apply Hbad; [discriminate|reflexivity]|].
  split; [apply Hbad; [discriminate|reflexivity]|].
  split.
  - destruct (Hgood [VString (js "s"); VString (js "t")]) as (segs & Hsegs & Hres);
      [discriminate|reflexivity|].
    rewrite Hres.
    destruct segs as [|s [|t [|u segs]]]; cbn in Hsegs; try discriminate Hsegs.
    injection Hsegs as <- <-. reflexivity.
  - apply Hesc.
Defined.

(** A table path that [buildTableReference] refuses stops [getTableSchema]
    and [previewTable] before anything is sent. *)
Lemma table_operations_validate_first
      (B : Type) (serve : B -> Request -> Reply * B) (b : B)
      (tablePath : option (list jsval)) (e : Exn) :
  buildTableReference tablePath = inl e ->
  run (getTableSchema serve tablePath) b = (Throw e, {| backend := b; trace := [] |})
  /\ run (previewTable serve tablePath) b = (Throw e, {| backend := b; trace := [] |}).
Proof.
  intros H. unfold run, getTableSchema, previewTable. now rewrite H.
Qed.

Lemma table_operations_validate_first_witness :
  run (getTableSchema Sample.scripted (Some [])) Sample.overServing
  = (Throw (Error (js "Table path cannot be empty")),
     {| backend := Sample.overServing; trace := [] |}).
Proof.
  apply (table_operations_validate_first _ Sample.scripted Sample.overServing (Some [])).
  reflexivity.
Defined.

(** ** SQL validation *)

Lemma lineScan_agree (s : jsstring) :
  forall inComment,
    Contract.lineCommentsTerminated s = true ->
    JS.lineScan inComment s = Contract.lineScan inComment s.
Proof.
  induction s as [|c t IH]; intros inComment H; [reflexivity|].
  assert (Ht : Contract.lineCommentsTerminated t = true).
  { cbn in H. destruct t as [|d t']; [reflexivity|].
    apply andb_true_iff in H as [_ H]. exact H. }
  cbn [JS.lineScan Contract.lineScan]. destruct inComment.
  - destruct (N.eqb c LF); [f_equal|]; now apply IH.
  - destruct t as [|d t']; [reflexivity|].
    cbn in H. apply andb_true_iff in H as [H _].
    destruct (N.eqb c DASH && N.eqb d DASH); cbn [negb orb] in H; cbn [andb].
    + rewrite H. now apply IH.
    + f_equal. now apply IH.
Qed.

(** Where every line comment of the trimmed text is closed by a line feed,
    the code and the contract of section 4.1 agree. *)
Lemma isSelectQuery_agrees (sql : jsstring) :
  Contract.lineCommentsTerminated (trim sql) = true ->
  isSelectQuery sql = Contract.isSelectQuery sql.
Proof.
  intros H. unfold isSelectQuery, Contract.isSelectQuery, stripLineComments.
  now rewrite lineScan_agree.
Qed.

Lemma isSelectQuery_agrees_witness :
  isSelectQuery (js "  -- comment" ++ [LF] ++ js "select 1")
  = Contract.isSelectQuery (js "  -- comment" ++ [LF] ++ js "select 1").
Proof. apply isSelectQuery_agrees. reflexivity. Defined.

(** The examples of section 8, and the empty and comment-only inputs. *)
Lemma isSelectQuery_examples :
  isSelectQuery (js "SELECT 1") = true
  /\ isSelectQuery (js "  -- comment" ++ [LF] ++ js "SELECT 1") = true
  /\ isSelectQuery (js "/* x */ select * from t") = true
  /\ isSelectQuery (js "DROP TABLE t") = false
  /\ isSelectQuery (js "SELECTX") = false
  /\ isSelectQuery [] = false
  /\ isSelectQuery (js "-- only" ++ [LF] ++ js "/* a comment */") = false.
Proof. repeat split; reflexivity. Qed.

(** C1.  A [--] comment on the last line of the text has no line feed
    after it and is left in place by [isSelectQuery].  For
    [/* -- */ DELETE FROM t], a line feed, [-- */ SELECT 1] the first [--]
    swallows the DELETE up to the line feed, the second one stays, and the
    block comment then runs up to its [*/]: the code answers true for a
    DELETE statement, where the contract, read in either way, answers
    false.  For [SELECT --x] the code answers true although what remains
    once the comment is stripped, [SELECT], is not followed by whitespace. *)
Theorem isSelectQuery_last_line_comment :
  let bypass := js "/* -- */ DELETE FROM t" ++ [LF] ++ js "-- */ SELECT 1" in
  isSelectQuery bypass = true
  /\ Contract.isSelectQuery bypass = false
  /\ Contract.isSelectQueryLexical bypass = false
  /\ Contract.lexScan Contract.Code bypass = js " DELETE FROM t" ++ [LF]
  /\ stripBlockComments (stripLineComments bypass) = js " SELECT 1"
  /\ isSelectQuery (js "SELECT --x") = true
  /\ Contract.isSelectQuery (js "SELECT --x") = false
  /\ Contract.isSelectQueryLexical (js "SELECT --x") = false
  /\ stripLineComments (js "SELECT --x") = js "SELECT --x".
Proof. repeat split; reflexivity. Qed.

(** ** Catalog URLs *)

Section CatalogUrl.

Lemma hexDigit_not_slash (n : N) : hexDigit n <> SLASH.
Proof.
  unfold hexDigit, SLASH. destruct (N.ltb_spec n 10); lia.
Qed.

Lemma pctEncode_no_slash (cp : N) : ~ In SLASH (pctEncode cp).
Proof.
  unfold pctEncode. rewrite in_flat_map. intros (b & _ & Hb).
  cbn in Hb. destruct Hb as [H|[H|[H|[]]]].
  - discriminate H.
  - now apply hexDigit_not_slash in H.
  - now apply hexDigit_not_slash in H.
Qed.

Lemma unreserved_not_slash (c : codeunit) : isUnreserved c = true -> c <> SLASH.
Proof. intros H ->. discriminate H. Qed.

Lemma encode_no_slash_bounded (n : nat) :
  forall s e, List.length s <= n -> encodeURIComponent s = Some e -> ~ In SLASH e.
Proof.
  induction n as [|n IH]; intros s e Hlen Henc.
  - destruct s; [|cbn in Hlen; lia]. injection Henc as <-. intros [].
  - destruct s as [|c t]; [injection Henc as <-; intros []|].
    cbn in Hlen. cbn [encodeURIComponent] in Henc.
    destruct (isUnreserved c) eqn:Hu.
    + destruct (encodeURIComponent t) as [e'|] eqn:Et; [|discriminate].
      injection Henc as <-. intros [H|H].
      * now apply (unreserved_not_slash c Hu).
      * revert H. apply (IH t); [lia|exact Et].
    + destruct (isLowSurrogate c); [discriminate|].
      destruct (isHighSurrogate c).
      * destruct t as [|d t']; [discriminate|].
        destruct (isLowSurrogate d); [|discriminate].
        destruct (encodeURIComponent t') as [e'|] eqn:Et; [|discriminate].
        injection Henc as <-. rewrite in_app_iff. intros [H|H].
        -- now apply pctEncode_no_slash in H.
        -- revert H. apply (IH t'); [cbn in Hlen; lia|exact Et].
      * destruct (encodeURIComponent t) as [e'|] eqn:Et; [|discriminate].
        injection Henc as <-. rewrite in_app_iff. intros [H|H].
        -- now apply pctEncode_no_slash in H.
        -- revert H. apply (IH t); [lia|exact Et].
Qed.

(** The output of [encodeURIComponent] never holds a slash. *)
Lemma encode_no_slash (s e : jsstring) :
  encodeURIComponent s = Some e -> ~ In SLASH e.
Proof. apply (encode_no_slash_bounded (List.length s)). lia. Qed.

Lemma mapThrowing_encode (segs : list jsstring) :
  (exists encoded,
      mapThrowing encodeSegment segs = inr encoded
      /\ Forall2 (fun seg enc => encodeURIComponent seg = Some enc) segs encoded)
  \/ (mapThrowing encodeSegment segs = inl URIError
      /\ Exists (fun seg => encodeURIComponent seg = None) segs).
Proof.
  induction segs as [|s segs IH].
  - left. exists []. split; [reflexivity|constructor].
  - cbn [mapThrowing]. unfold encodeSegment at 1 3.
    destruct (encodeURIComponent s) as [e|] eqn:Es.
    + destruct IH as [(encoded & -> & Hall)|(-> & Hex)].
      * left. exists (e :: encoded). split; [reflexivity|]. now constructor.
      * right. split; [reflexivity|]. now apply Exists_cons_tl.
    + right. split; [reflexivity|]. now apply Exists_cons_hd.
Qed.

Lemma count_slash_join (encoded : list jsstring) :
  Forall (fun e => ~ In SLASH e) encoded ->
  count_occ N.eq_dec (join [SLASH] encoded) SLASH = List.length encoded - 1.
Proof.
  induction 1 as [|e rest He _ IH]; [reflexivity|].
  destruct rest as [|e' rest'].
  - cbn. now apply count_occ_not_In.
  - change (join [SLASH] (e :: e' :: rest'))
      with (e ++ [SLASH] ++ join [SLASH] (e' :: rest')).
    unfold jsstring, codeunit in *.
    rewrite !count_occ_app, IH.
    rewrite (proj1 (count_occ_not_In N.eq_dec e SLASH) He).
    cbn. lia.
Qed.

End CatalogUrl.

(** C2.  For a non-empty path [getCatalog] either sends exactly one GET
    whose URL is the catalog prefix followed by the segments, each
    percent-encoded on its own, joined with slashes, or (an unpaired
    surrogate in some segment) throws the URIError of
    [encodeURIComponent] before sending anything.  The encoded path holds
    exactly one slash per separator, so no separator is ever encoded and
    every slash inside a segment is; with two or more segments the result
    is never the encoding of the joined path. *)
Theorem getCatalog_encodes_each_segment :
  forall (B : Type) (serve : B -> Request -> Reply * B) (b : B)
         (p : jsstring) (ps : list jsstring),
    (exists encoded rep,
        Forall2 (fun seg enc => encodeURIComponent seg = Some enc) (p :: ps) encoded
        /\ trace (snd (run (getCatalog serve (Some (p :: ps))) b))
           = [Exchange (GET (js "/api/v3/catalog/" ++ join [SLASH] encoded) None) rep]
        /\ count_occ N.eq_dec (join [SLASH] encoded) SLASH = List.length ps
        /\ (ps <> [] ->
            encodeURIComponent (join [SLASH] (p :: ps)) <> Some (join [SLASH] encoded)))
    \/ (Exists (fun seg => encodeURIComponent seg = None) (p :: ps)
        /\ run (getCatalog serve (Some (p :: ps))) b
           = (Throw URIError, {| backend := b; trace := [] |})).
Proof.
  intros B serve b p ps.
  destruct (mapThrowing_encode (p :: ps)) as [(encoded & Hmap & Hall)|(Hmap & Hex)].
  - left.
    assert (Hslash : Forall (fun e => ~ In SLASH e) encoded).
    { clear Hmap. induction Hall as [|seg enc segs encs Henc _ IH]; constructor.
      - now apply (encode_no_slash seg).
      - exact IH. }
    assert (Hcount : count_occ N.eq_dec (join [SLASH] encoded) SLASH = List.length ps).
    { rewrite count_slash_join by exact Hslash.
      rewrite <- (Forall2_length Hall). cbn. lia. }
    unfold run, getCatalog, catalogUrl. rewrite Hmap. unfold request. cbn [backend trace].
    destruct (serve b _) as [rep b'] eqn:Hs.
    exists encoded, rep. split; [exact Hall|].
    split; [destruct rep; reflexivity|].
    split; [exact Hcount|].
    intros Hps Hwhole. apply encode_no_slash in Hwhole.
    apply (count_occ_not_In N.eq_dec) in Hwhole.
    rewrite Hcount in Hwhole. destruct ps; [contradiction|discriminate].
  - right. split; [exact Hex|].
    unfold run, getCatalog, catalogUrl. now rewrite Hmap.
Qed.

Lemma getCatalog_encodes_each_segment_witness :
  trace (snd (run (getCatalog Sample.scripted (Some [js "a"; js "b/c"])) [Ok Sample.listing]))
  = [Exchange (GET (js "/api/v3/catalog/a/b%2Fc") None) (Ok Sample.listing)]
  /\ encodeURIComponent (js "a/b/c") = Some (js "a%2Fb%2Fc").
Proof.
  split; [|reflexivity].
  destruct (getCatalog_encodes_each_segment _ Sample.scripted [Ok Sample.listing]
              (js "a") [js "b/c"]) as [(encoded & rep & _ & Htrace & _ & Hdiff)|[_ H]].
  - pose proof (Hdiff ltac:(discriminate)) as _. reflexivity.
  - discriminate H.
Defined.

(** ** The polling loop *)

Section Polling.

Variable B : Type.
Variable serve : B -> Request -> Reply * B.

Lemma pollLoop_step (fuel : nat) (jobId st : option jsstring) (att : nat) (w : World B) :
  pollLoop serve (S fuel) jobId st att w =
  if isInFlight st then
    if (maxAttempts <=? att)%nat then (Throw (Error (js "Query timeout")), w)
    else
      let (rep, b') := serve (backend w) (GET (statusUrl jobId) None) in
      let w' := {| backend := b';
                   trace := (trace w ++ [Sleep 1000])
                            ++ [Exchange (GET (statusUrl jobId) None) rep] |} in
      match rep with
      | Ok d =>
        if isFailure (data_jobState d) then (Throw (Error (failureMessage d)), w')
        else pollLoop serve fuel jobId (data_jobState d) (S att) w'
      | Reject message response => (Throw (AxiosError message response), w')
      end
  else (Return st, w).
Proof.
  cbn [pollLoop]. destruct (isInFlight st); [|reflexivity].
  destruct (maxAttempts <=? att)%nat; [reflexivity|].
  unfold bind, sleep, request, emit, statusUrl. cbn [backend trace].
  destruct (serve (backend w) _) as [rep b']. destruct rep; [|reflexivity].
  destruct (isFailure (data_jobState d)); reflexivity.
Qed.

(** The loop run with enough fuel follows [Polling], and leaves one sleep
    and one status fetch per reply in the trace. *)
Lemma pollLoop_polling (jobId : option jsstring) (fuel : nat) :
  forall st att w,
    maxAttempts - att < fuel ->
    exists replies,
      Polling st att replies (fst (pollLoop serve fuel jobId st att w))
      /\ trace (snd (pollLoop serve fuel jobId st att w))
         = trace w ++ polls jobId replies.
Proof.
  induction fuel as [|fuel IH]; intros st att w Hfuel; [lia|].
  rewrite pollLoop_step. cbv zeta.
  destruct (isInFlight st) eqn:Hin.
  - destruct (Nat.leb_spec maxAttempts att) as [Hmax|Hmax].
    + exists []. split; [now constructor|cbn; now rewrite app_nil_r].
    + destruct (serve (backend w) _) as [rep b']. destruct rep as [d|m r].
      * destruct (isFailure (data_jobState d)) eqn:Hf.
        -- exists [Ok d]. split; [now constructor|].
           cbn. now rewrite <- app_assoc.
        -- match goal with
           | |- context [pollLoop serve fuel jobId ?s ?a ?w'] =>
             destruct (IH s a w') as (replies & Hp & Ht); [lia|]
           end.
           exists (Ok d :: replies). split; [now constructor|].
           rewrite Ht. cbn. now rewrite <- !app_assoc.
      * exists [Reject m r]. split; [now constructor|].
        cbn. now rewrite <- app_assoc.
  - exists []. split; [now constructor|cbn; now rewrite app_nil_r].
Qed.

(** Fuel beyond what the attempt ceiling leaves is never used. *)
Lemma pollLoop_fuel (jobId : option jsstring) (fuel : nat) :
  forall fuel' st att w,
    maxAttempts - att < fuel -> maxAttempts - att < fuel' ->
    pollLoop serve fuel jobId st att w = pollLoop serve fuel' jobId st att w.
Proof.
  induction fuel as [|fuel IH]; intros fuel' st att w H H'; [lia|].
  destruct fuel' as [|fuel']; [lia|].
  rewrite !pollLoop_step. cbv zeta.
  destruct (isInFlight st); [|reflexivity].
  destruct (Nat.leb_spec maxAttempts att) as [Hmax|Hmax]; [reflexivity|].
  destruct (serve (backend w) _) as [rep b']. destruct rep as [d|m r]; [|reflexivity].
  destruct (isFailure (data_jobState d)); [reflexivity|].
  apply IH; lia.
Qed.

End Polling.

Lemma Polling_terminates st att replies o :
  Polling st att replies o -> o <> OutOfFuel.
Proof. induction 1; try discriminate; assumption. Qed.

Lemma Polling_bounded st att replies o :
  Polling st att replies o -> List.length replies <= maxAttempts - att.
Proof. induction 1; cbn [List.length]; lia. Qed.

Lemma Polling_stuck st att replies o :
  Polling st att replies o ->
  isInFlight st = true ->
  forallb repliedInFlight replies = true ->
  o = Throw (Error (js "Query timeout"))
  /\ List.length replies = maxAttempts - att.
Proof.
  induction 1 as [st att Hst|st att Hst Hmax|st att m r Hst Hlt
                  |st att d Hst Hlt Hf|st att d replies o Hst Hlt Hf Hp IH];
    intros Hin Hall.
  - congruence.
  - split; [reflexivity|cbn [List.length]; lia].
  - discriminate Hall.
  - cbn in Hall. rewrite andb_true_r in Hall.
    unfold isInFlight, isFailure in *.
    destruct (data_jobState d) as [s|]; [|discriminate Hall].
    cbn in Hall, Hf.
    repeat match type of Hall with
           | context [list_eq_dec N.eq_dec s ?l] =>
             destruct (list_eq_dec N.eq_dec s l) as [->|]
           end; try discriminate Hall; discriminate Hf.
  - cbn in Hall. apply andb_true_iff in Hall as [Hd Hall].
    destruct (IH Hd Hall) as [-> Hlen]. split; [reflexivity|cbn [List.length]; lia].
Qed.

Lemma Polling_failed st att replies o d :
  Polling st att replies o ->
  In (Ok d) replies ->
  isFailure (data_jobState d) = true ->
  o = Throw (Error (failureMessage d)).
Proof.
  induction 1 as [| | |st att d' Hst Hlt Hf|st att d' replies o Hst Hlt Hf Hp IH];
    intros Hd Hfail.
  - destruct Hd.
  - destruct Hd.
  - destruct Hd as [Hd|[]]. discriminate Hd.
  - destruct Hd as [Hd|[]]. now injection Hd as ->.
  - destruct Hd as [Hd|Hd].
    + injection Hd as ->. congruence.
    + now apply IH.
Qed.

Lemma Polling_return st att replies st' :
  Polling st att replies (Return st') -> isInFlight st' = false.
Proof.
  intros H. remember (Return st') as o eqn:Ho.
  induction H; try discriminate Ho; [now injection Ho as <-|auto].
Qed.

(** ** One call of [executeQuery] *)

Section Query.

Variable B : Type.
Variable serve : B -> Request -> Reply * B.

Lemma executeQueryCatch_caught (A : Type) (e : Exn) (w : World B) :
  @executeQueryCatch B A e w = (Throw (caught e), w).
Proof. destruct e as [m| | |m [[status body]|]]; reflexivity. Qed.

Lemma executeQueryFuel_unfold (fuel : nat) (sql : jsstring) (maxRows : option Z)
      (w : World B) :
  executeQueryFuel serve fuel sql maxRows w =
  let (rep0, b0) := serve (backend w) (POST (js "/api/v3/sql") sql) in
  let w0 := {| backend := b0;
               trace := trace w ++ [Exchange (POST (js "/api/v3/sql") sql) rep0] |} in
  match rep0 with
  | Reject m r => (Throw (caught (AxiosError m r)), w0)
  | Ok d0 =>
    match pollLoop serve fuel (data_id d0) (Some (js "RUNNING")) 0 w0 with
    | (Return st, w1) =>
      if strictEq st (js "COMPLETED") then
        let req := GET (resultsUrl (data_id d0)) (Some (clamp maxRows)) in
        let (rep, b2) := serve (backend w1) req in
        let w2 := {| backend := b2; trace := trace w1 ++ [Exchange req rep] |} in
        match rep with
        | Ok d => (Return (resultOf d), w2)
        | Reject m r => (Throw (caught (AxiosError m r)), w2)
        end
      else (Throw (Error (js "Query failed with state: " ++ interpolate st)), w1)
    | (Throw e, w1) => (Throw (caught e), w1)
    | (OutOfFuel, w1) => (OutOfFuel, w1)
    end
  end.
Proof.
  unfold executeQueryFuel, tryCatch, executeQueryBody.
  unfold bind at 1. unfold request at 1.
  destruct (serve (backend w) (POST (js "/api/v3/sql") sql)) as [rep0 b0].
  destruct rep0 as [d0|m r]; [|now rewrite executeQueryCatch_caught].
  unfold bind at 1.
  destruct (pollLoop serve fuel (data_id d0) (Some (js "RUNNING")) 0 _) as [[st|e|] w1].
  - destruct (strictEq st (js "COMPLETED")); cbn [negb].
    + unfold bind, request, resultsUrl, clamp. cbv zeta.
      destruct (serve (backend w1) _) as [rep b2].
      destruct rep as [d|m r]; [reflexivity|].
      now rewrite executeQueryCatch_caught.
    + unfold throw. now rewrite executeQueryCatch_caught.
  - now rewrite executeQueryCatch_caught.
  - reflexivity.
Qed.

(** Every run of [executeQuery] is one of the five runs of [QueryRun]. *)
Lemma executeQueryFuel_run (fuel : nat) (sql : jsstring) (maxRows : option Z) (b : B) :
  maxAttempts < fuel ->
  QueryRun sql (clamp maxRows)
           (trace (snd (run (executeQueryFuel serve fuel sql maxRows) b)))
           (fst (run (executeQueryFuel serve fuel sql maxRows) b)).
Proof.
  intros Hfuel. unfold run. rewrite executeQueryFuel_unfold. cbn [backend trace app].
  destruct (serve b (POST (js "/api/v3/sql") sql)) as [rep0 b0]. cbv zeta.
  destruct rep0 as [d0|m r]; [|cbn [fst snd trace]; constructor].
  match goal with
  | |- context [pollLoop serve fuel ?j ?s 0 ?w] =>
    destruct (pollLoop_polling B serve j fuel s 0 w) as (replies & Hp & Ht); [lia|];
      destruct (pollLoop serve fuel j s 0 w) as [o w1]
  end.
  cbn [fst snd trace] in Hp, Ht. cbn [app] in Ht.
  destruct o as [st|e|].
  - destruct (strictEq st (js "COMPLETED")) eqn:Hc.
    + destruct (serve (backend w1) _) as [rep b2].
      destruct rep as [d|m r]; cbn [fst snd trace]; rewrite Ht; cbn [app].
      * now apply run_completed with (st := st).
      * now apply run_results_rejected with (st := st).
    + cbn [fst snd]. rewrite Ht. now apply run_not_completed.
  - cbn [fst snd]. rewrite Ht. now apply run_poll_threw.
  - now apply Polling_terminates in Hp.
Qed.

Lemma executeQueryFuel_enough (fuel : nat) (sql : jsstring) (maxRows : option Z)
      (w : World B) :
  maxAttempts < fuel ->
  executeQueryFuel serve fuel sql maxRows w = executeQuery serve sql maxRows w.
Proof.
  intros Hfuel. unfold executeQuery. rewrite !executeQueryFuel_unfold.
  destruct (serve (backend w) _) as [rep0 b0]. cbv zeta.
  destruct rep0 as [d0|m r]; [|reflexivity].
  now rewrite (pollLoop_fuel B serve (data_id d0) fuel (S maxAttempts)) by lia.
Qed.

Lemma executeQuery_run (sql : jsstring) (maxRows : option Z) (b : B) :
  QueryRun sql (clamp maxRows)
           (trace (snd (run (executeQuery serve sql maxRows) b)))
           (fst (run (executeQuery serve sql maxRows) b)).
Proof. apply executeQueryFuel_run. unfold maxAttempts. lia. Qed.

End Query.

(** *** Counting the events of a run *)

Lemma count_app (p : Event -> bool) (l l' : list Event) :
  count p (l ++ l') = count p l + count p l'.
Proof. unfold count. now rewrite filter_app, length_app. Qed.

Lemma polls_cons (jobId : option jsstring) (rep : Reply) (replies : list Reply) :
  polls jobId (rep :: replies)
  = Sleep 1000 :: Exchange (GET (statusUrl jobId) None) rep :: polls jobId replies.
Proof. reflexivity. Qed.

Lemma count_polls_status (jobId : option jsstring) (replies : list Reply) :
  count isStatusFetch (polls jobId replies) = List.length replies.
Proof.
  induction replies as [|rep replies IH]; [reflexivity|].
  rewrite polls_cons. unfold count in *.
  cbn [filter isStatusFetch List.length]. now f_equal.
Qed.

Lemma count_polls_requests (jobId : option jsstring) (replies : list Reply) :
  count isHttpRequest (polls jobId replies) = List.length replies.
Proof.
  induction replies as [|rep replies IH]; [reflexivity|].
  rewrite polls_cons. unfold count in *.
  cbn [filter isHttpRequest List.length]. now f_equal.
Qed.


Lemma polls_in_flight (jobId : option jsstring) (replies : list Reply) (rest : list Event) :
  pollsStayInFlight (polls jobId replies ++ rest) = true ->
  forallb repliedInFlight replies = true.
Proof.
  unfold pollsStayInFlight.
  induction replies as [|rep replies IH]; [reflexivity|].
  rewrite polls_cons. cbn [app forallb repliedInFlight andb].
  destruct rep as [d|m r]; intros H; [|discriminate H].
  apply andb_true_iff in H as [Hd H].
  cbn [forallb repliedInFlight]. rewrite Hd. now apply IH.
Qed.

Lemma polls_replies (jobId : option jsstring) (replies : list Reply) url rep :
  In (Exchange (GET url None) rep) (polls jobId replies) -> In rep replies.
Proof.
  induction replies as [|rep' replies IH]; [intros []|].
  rewrite polls_cons. cbn [In]. intros [H|[H|H]].
  - discriminate H.
  - left. now injection H.
  - right. now apply IH.
Qed.

(** Within a run, only polls are GETs without a limit. *)
Lemma QueryRun_status_fetch sql limit tr o url rep :
  QueryRun sql limit tr o ->
  In (Exchange (GET url None) rep) tr ->
  exists replies res,
    Polling (Some (js "RUNNING")) 0 replies res /\ In rep replies
    /\ (forall e, res = Throw e -> o = Throw (caught e)).
Proof.
  intros Hrun Hin.
  destruct Hrun as [m r|d0 replies e Hp|d0 replies st Hp Hc
                    |d0 replies st m r Hp Hc|d0 replies st d Hp Hc];
    cbn in Hin.
  - destruct Hin as [H|[]]. discriminate H.
  - destruct Hin as [H|H]; [discriminate H|].
    exists replies, (Throw e). split; [exact Hp|].
    split; [now apply polls_replies in H|].
    intros e' He. now injection He as <-.
  - destruct Hin as [H|H]; [discriminate H|].
    exists replies, (Return st). split; [exact Hp|].
    split; [now apply polls_replies in H|]. discriminate.
  - destruct Hin as [H|H]; [discriminate H|].
    apply in_app_iff in H as [H|[H|[]]]; [|discriminate H].
    exists replies, (Return st). split; [exact Hp|].
    split; [now apply polls_replies in H|]. discriminate.
  - destruct Hin as [H|H]; [discriminate H|].
    apply in_app_iff in H as [H|[H|[]]]; [|discriminate H].
    exists replies, (Return st). split; [exact Hp|].
    split; [now apply polls_replies in H|]. discriminate.
Qed.

(** *** Substrings *)

Lemma startsWith_app (t b : jsstring) : startsWith (t ++ b) t = true.
Proof.
  induction t as [|c t IH]; [reflexivity|].
  cbn. now rewrite N.eqb_refl, IH.
Qed.

Lemma includes_here (s t : jsstring) : startsWith s t = true -> includes s t = true.
Proof. intros H. destruct s; cbn; now rewrite H. Qed.

Lemma includes_skip (a s t : jsstring) :
  includes s t = true -> includes (a ++ s) t = true.
Proof.
  intros H. induction a as [|c a IH]; [exact H|].
  cbn. rewrite IH. apply orb_true_r.
Qed.

Lemma includes_app (x t y : jsstring) : includes (x ++ t ++ y) t = true.
Proof. apply includes_skip, includes_here, startsWith_app. Qed.

Lemma includes_end (x t : jsstring) : includes (x ++ t) t = true.
Proof. rewrite <- (app_nil_r t) at 1. apply includes_app. Qed.

Lemma includes_empty (s : jsstring) : includes s [] = true.
Proof. destruct s; reflexivity. Qed.

Lemma failureMessage_includes (d : ResponseData) :
  includes (failureMessage d) (interpolate (data_jobState d)) = true
  /\ (forall m, data_errorMessage d = Some m -> includes (failureMessage d) m = true)
  /\ (forall q, data_queryError d = Some q -> includes (failureMessage d) q = true).
Proof.
  unfold failureMessage. repeat split.
  - apply includes_app.
  - intros m ->. destruct m as [|c m]; [apply includes_empty|].
    cbn [orElse]. rewrite !app_assoc. rewrite <- app_assoc. apply includes_app.
  - intros q ->. destruct q as [|c q]; [apply includes_empty|].
    cbn [orElse]. rewrite !app_assoc. apply includes_end.
Qed.

(** ** Claims on [executeQuery] *)

(** C10.  Whatever the backend replies, one call of [executeQuery]
    terminates (the model never runs out of fuel, and more fuel than the
    ceiling changes nothing), fetches the job status at most 30 times and
    issues at most 32 HTTP requests: one submission, the polls, one
    results fetch. *)
Theorem executeQuery_bounded_polling :
  forall (B : Type) (serve : B -> Request -> Reply * B) (b : B)
         (sql : jsstring) (maxRows : option Z),
    fst (run (executeQuery serve sql maxRows) b) <> OutOfFuel
    /\ count isStatusFetch (trace (snd (run (executeQuery serve sql maxRows) b))) <= 30
    /\ count isHttpRequest (trace (snd (run (executeQuery serve sql maxRows) b))) <= 32
    /\ (forall fuel,
           30 < fuel ->
           run (executeQueryFuel serve fuel sql maxRows) b
           = run (executeQuery serve sql maxRows) b).
Proof.
  intros B serve b sql maxRows.
  pose proof (executeQuery_run B serve sql maxRows b) as Hrun.
  split; [|split; [|split]].
  - destruct Hrun; discriminate.
  - destruct Hrun as [m r|d0 replies e Hp|d0 replies st Hp Hc
                      |d0 replies st m r Hp Hc|d0 replies st d Hp Hc];
      try (apply Polling_bounded in Hp; unfold maxAttempts in Hp);
      rewrite ?app_comm_cons, ?count_app;
      change (Exchange ?x ?y :: ?l) with ([Exchange x y] ++ l);
      rewrite ?count_app, ?count_polls_status; cbn; lia.
  - destruct Hrun as [m r|d0 replies e Hp|d0 replies st Hp Hc
                      |d0 replies st m r Hp Hc|d0 replies st d Hp Hc];
      try (apply Polling_bounded in Hp; unfold maxAttempts in Hp);
      rewrite ?app_comm_cons, ?count_app;
      change (Exchange ?x ?y :: ?l) with ([Exchange x y] ++ l);
      rewrite ?count_app, ?count_polls_requests; cbn; lia.
  - intros fuel Hfuel. unfold run. now apply executeQueryFuel_enough.
Qed.

Lemma executeQuery_bounded_polling_witness :
  count isStatusFetch
        (trace (snd (run (executeQuery Sample.stuck (js "SELECT 1") None) tt))) <= 30
  /\ run (executeQueryFuel Sample.stuck 40 (js "SELECT 1") None) tt
     = run (executeQuery Sample.stuck (js "SELECT 1") None) tt.
Proof.
  destruct (executeQuery_bounded_polling _ Sample.stuck tt (js "SELECT 1") None)
    as (_ & Hpolls & _ & Hfuel).
  split; [exact Hpolls|apply Hfuel; lia].
Defined.

(** C7.  When the job was submitted and every status fetch of the call
    was answered with an in-flight state (STARTING, ENQUEUED or RUNNING),
    [executeQuery] stops after exactly 30 status fetches and throws the
    timeout error. *)
Theorem executeQuery_times_out :
  forall (B : Type) (serve : B -> Request -> Reply * B) (b : B)
         (sql : jsstring) (maxRows : option Z),
    jobSubmitted (trace (snd (run (executeQuery serve sql maxRows) b))) = true ->
    pollsStayInFlight (trace (snd (run (executeQuery serve sql maxRows) b))) = true ->
    fst (run (executeQuery serve sql maxRows) b) = Throw (Error (js "Query timeout"))
    /\ count isStatusFetch (trace (snd (run (executeQuery serve sql maxRows) b))) = 30
    /\ count isHttpRequest (trace (snd (run (executeQuery serve sql maxRows) b))) = 31.
Proof.
  intros B serve b sql maxRows.
  pose proof (executeQuery_run B serve sql maxRows b) as Hrun.
  destruct Hrun as [m r|d0 replies e Hp|d0 replies st Hp Hc
                    |d0 replies st m r Hp Hc|d0 replies st d Hp Hc];
    intros Hsub Hall; [discriminate Hsub|..];
    change (pollsStayInFlight (Exchange ?x ?y :: ?l))
      with (pollsStayInFlight l) in Hall;
    first [apply polls_in_flight in Hall
          |rewrite <- (app_nil_r (polls _ replies)) in Hall;
           apply polls_in_flight in Hall];
    destruct (Polling_stuck _ _ _ _ Hp eq_refl Hall) as [Ho Hlen];
    try discriminate Ho.
  injection Ho as ->. unfold maxAttempts in Hlen. cbn [caught].
  split; [reflexivity|].
  change (Exchange ?x ?y :: ?l) with ([Exchange x y] ++ l).
  rewrite !count_app, count_polls_status, count_polls_requests, Hlen.
  split; reflexivity.
Qed.

Lemma executeQuery_times_out_witness :
  fst (run (executeQuery Sample.stuck (js "SELECT 1") None) tt)
  = Throw (Error (js "Query timeout"))
  /\ count isStatusFetch
           (trace (snd (run (executeQuery Sample.stuck (js "SELECT 1") None) tt))) = 30
  /\ count isHttpRequest
           (trace (snd (run (executeQuery Sample.stuck (js "SELECT 1") None) tt))) = 31.
Proof.
  apply (executeQuery_times_out _ Sample.stuck tt (js "SELECT 1") None);
    vm_compute; reflexivity.
Defined.

(** C6.  When a status fetch of the call is answered FAILED or CANCELED,
    [executeQuery] throws an error whose message holds the reported state,
    the backend's [errorMessage] and, when the backend sent one, its
    [queryError] detail. *)
Theorem executeQuery_reports_failure :
  forall (B : Type) (serve : B -> Request -> Reply * B) (b : B)
         (sql : jsstring) (maxRows : option Z) (url : jsstring) (d : ResponseData),
    In (Exchange (GET url None) (Ok d))
       (trace (snd (run (executeQuery serve sql maxRows) b))) ->
    isFailure (data_jobState d) = true ->
    fst (run (executeQuery serve sql maxRows) b) = Throw (Error (failureMessage d))
    /\ includes (failureMessage d) (interpolate (data_jobState d)) = true
    /\ (forall m, data_errorMessage d = Some m -> includes (failureMessage d) m = true)
    /\ (forall q, data_queryError d = Some q -> includes (failureMessage d) q = true).
Proof.
  intros B serve b sql maxRows url d Hin Hfail.
  split; [|apply failureMessage_includes].
  pose proof (executeQuery_run B serve sql maxRows b) as Hrun.
  destruct (QueryRun_status_fetch _ _ _ _ _ _ Hrun Hin)
    as (replies & res & Hp & Hd & Hthrow).
  rewrite (Hthrow _ (Polling_failed _ _ _ _ _ Hp Hd Hfail)). reflexivity.
Qed.

Lemma executeQuery_reports_failure_witness :
  fst (run (executeQuery Sample.scripted (js "SELECT * FROM missing") None) Sample.failing)
  = Throw (Error (js "Query failed with state: FAILED. Error: Table not found. Details: line 1"))
  /\ includes
       (js "Query failed with state: FAILED. Error: Table not found. Details: line 1")
       (js "Table not found") = true
  /\ includes
       (js "Query failed with state: FAILED. Error: Table not found. Details: line 1")
       (js "line 1") = true.
Proof.
  destruct (executeQuery_reports_failure _ Sample.scripted Sample.failing
              (js "SELECT * FROM missing") None (js "/api/v3/job/job-1")
              (Sample.jobStatus (js "FAILED") (Some (js "Table not found"))
                                (Some (js "line 1"))))
    as (Hthrow & _ & Hmsg & Hdetail).
  - vm_compute. right. right. right. right. left. reflexivity.
  - reflexivity.
  - split; [exact Hthrow|].
    split; [exact (Hmsg _ eq_refl)|exact (Hdetail _ eq_refl)].
Defined.

Lemma limitsWithin_polls (cap : Z) (jobId : option jsstring) (replies : list Reply) :
  limitsWithin cap (polls jobId replies) = true.
Proof.
  unfold limitsWithin.
  induction replies as [|rep replies IH]; [reflexivity|].
  rewrite polls_cons. cbn [forallb andb]. exact IH.
Qed.

Lemma limitsWithin_app (cap : Z) (l l' : list Event) :
  limitsWithin cap (l ++ l') = limitsWithin cap l && limitsWithin cap l'.
Proof. apply forallb_app. Qed.

Lemma polls_no_limit (jobId : option jsstring) (replies : list Reply) url limit rep :
  ~ In (Exchange (GET url (Some limit)) rep) (polls jobId replies).
Proof.
  induction replies as [|rep' replies IH]; [intros []|].
  rewrite polls_cons. cbn [In]. intros [H|[H|H]]; [discriminate H|discriminate H|].
  now apply IH.
Qed.

(** Counterexample to C5 as stated: the rows returned can outnumber the
    clamped limit; a backend that serves three rows when asked for two has
    all three returned. *)
Lemma executeQuery_rows_exceed_limit :
  ~ (forall (B : Type) (serve : B -> Request -> Reply * B) (b : B)
            (sql : jsstring) (maxRows : Z) (q : QueryResult),
        fst (run (executeQuery serve sql (Some maxRows)) b) = Return q ->
        (Z.of_nat (List.length (rows q)) <= Z.min maxRows 500)%Z).
Proof.
  intros H.
  specialize (H _ Sample.scripted Sample.overServing (js "SELECT 1") 2%Z _ eq_refl).
  vm_compute in H. now apply H.
Qed.

(** C5, amended.  [executeQuery] clamps the requested row limit to 500
    before the results page is fetched: the only request carrying a
    [limit] is the results fetch, its limit is [min(maxRows, 500)], never
    above the cap.  A call that returns a result returns the rows of the
    page the backend served, as served; they number at most
    [min(maxRows, 500)] whenever the page holds no more rows than the
    limit it was asked for. *)
Theorem executeQuery_limit_clamped :
  forall (B : Type) (serve : B -> Request -> Reply * B) (b : B)
         (sql : jsstring) (maxRows : option Z),
    (clamp maxRows <= 500)%Z
    /\ (forall n, maxRows = Some n -> clamp maxRows = Z.min n 500)
    /\ limitsWithin 500 (trace (snd (run (executeQuery serve sql maxRows) b))) = true
    /\ (forall url limit rep,
           In (Exchange (GET url (Some limit)) rep)
              (trace (snd (run (executeQuery serve sql maxRows) b))) ->
           limit = clamp maxRows)
    /\ (forall q,
           fst (run (executeQuery serve sql maxRows) b) = Return q ->
           exists pre url d,
             trace (snd (run (executeQuery serve sql maxRows) b))
             = pre ++ [Exchange (GET url (Some (clamp maxRows))) (Ok d)]
             /\ rows q = match data_rows d with Some page => page | None => [] end
             /\ (forall page,
                    data_rows d = Some page ->
                    (Z.of_nat (List.length page) <= clamp maxRows)%Z ->
                    (Z.of_nat (List.length (rows q)) <= clamp maxRows)%Z)).
Proof.
  intros B serve b sql maxRows.
  assert (Hcap : (clamp maxRows <= 500)%Z) by (unfold clamp; lia).
  split; [exact Hcap|]. split; [now intros n ->|].
  pose proof (executeQuery_run B serve sql maxRows b) as Hrun.
  destruct Hrun as [m r|d0 replies e Hp|d0 replies st Hp Hc
                    |d0 replies st m r Hp Hc|d0 replies st d Hp Hc].
  - repeat split; [intros url limit rep [H|[]]; discriminate H|discriminate].
  - split; [|split]; [apply limitsWithin_polls| |discriminate].
    intros url limit rep [H|H]; [discriminate H|].
    now apply polls_no_limit in H.
  - split; [|split]; [apply limitsWithin_polls| |discriminate].
    intros url limit rep [H|H]; [discriminate H|].
    now apply polls_no_limit in H.
  - split; [|split]; [| |discriminate].
    + change (limitsWithin 500 (Exchange ?x ?y :: ?l)) with (limitsWithin 500 l).
      rewrite limitsWithin_app, limitsWithin_polls. cbn.
      rewrite andb_true_r. now apply Z.leb_le.
    + intros url limit rep [H|H]; [discriminate H|].
      apply in_app_iff in H as [H|[H|[]]]; [now apply polls_no_limit in H|].
      now injection H.
  - split; [|split].
    + change (limitsWithin 500 (Exchange ?x ?y :: ?l)) with (limitsWithin 500 l).
      rewrite limitsWithin_app, limitsWithin_polls. cbn.
      rewrite andb_true_r. now apply Z.leb_le.
    + intros url limit rep [H|H]; [discriminate H|].
      apply in_app_iff in H as [H|[H|[]]]; [now apply polls_no_limit in H|].
      now injection H.
    + intros q Hq. injection Hq as <-.
      eexists (_ :: _), _, d. split; [rewrite app_comm_cons; reflexivity|].
      split; [reflexivity|].
      intros page Hpage Hlen. cbn [rows resultOf]. now rewrite Hpage.
Qed.

Lemma executeQuery_limit_clamped_witness :
  clamp (Some 2%Z) = 2%Z
  /\ exists pre url d,
      trace (snd (run (executeQuery Sample.scripted (js "SELECT 1") (Some 2%Z))
                      Sample.overServing))
      = pre ++ [Exchange (GET url (Some 2%Z)) (Ok d)]
      /\ Sample.threeRows = match data_rows d with Some page => page | None => [] end.
Proof.
  destruct (executeQuery_limit_clamped _ Sample.scripted Sample.overServing
              (js "SELECT 1") (Some 2%Z)) as (_ & Hclamp & _ & _ & Hret).
  split; [exact (Hclamp 2%Z eq_refl)|].
  destruct (Hret _ eq_refl) as (pre & url & d & Htrace & Hrows & _).
  exists pre, url, d. split; [exact Htrace|exact Hrows].
Defined.

(** ** Explain *)



Section Completes.

Variable B : Type.
Variable serve : B -> Request -> Reply * B.



End Completes.





(** ** Catalog search *)

Section Search.

Variable toLowerCase : jsstring -> jsstring.
Variable searchTerm : jsstring.

(** Induction on an entity with the property available for its children. *)
Lemma CatalogEntity_children_ind (P : CatalogEntity -> Prop) :
  (forall i p, P (mkEntity i p None)) ->
  (forall i p cs, Forall P cs -> P (mkEntity i p (Some cs))) ->
  forall e, P e.
Proof.
  intros Hleaf Hnode.
  fix IH 1. intros [i p [cs|]]; [|apply Hleaf].
  apply Hnode.
  induction cs as [|c cs IHcs]; constructor; [apply IH|exact IHcs].
Qed.

Lemma searchRecursive_unfold (i : jsstring) (p : option (list jsstring))
      (cs : option (list CatalogEntity)) (results : list CatalogEntity) :
  searchRecursive toLowerCase searchTerm (mkEntity i p cs) results =
  let results' :=
    if isMatch toLowerCase searchTerm (mkEntity i p cs)
    then results ++ [mkEntity i p cs] else results in
  match cs with
  | Some children => searchEach toLowerCase searchTerm children results'
  | None => results'
  end.
Proof.
  cbn [searchRecursive]. unfold isMatch, nameMatches. cbn [path]. cbv zeta.
  destruct cs as [children|]; [|destruct p as [[|seg segs]|]; reflexivity].
  match goal with
  | |- ?each children ?r = _ =>
    assert (Heach : forall acc,
               each children acc = searchEach toLowerCase searchTerm children acc)
      by (induction children as [|c children IH]; intros acc;
          [reflexivity|cbn [searchEach]; rewrite <- IH; reflexivity])
  end.
  rewrite Heach. destruct p as [[|seg segs]|]; reflexivity.
Qed.

Lemma searchEach_filter (entities : list CatalogEntity) :
  Forall (fun e => forall results,
              searchRecursive toLowerCase searchTerm e results
              = results ++ filter (isMatch toLowerCase searchTerm) (Contract.preorder e))
         entities ->
  forall results,
    searchEach toLowerCase searchTerm entities results
    = results ++ filter (isMatch toLowerCase searchTerm)
                        (flat_map Contract.preorder entities).
Proof.
  induction 1 as [|e entities He _ IH]; intros results.
  - cbn. now rewrite app_nil_r.
  - cbn [searchEach flat_map]. rewrite IH, He, filter_app. now rewrite app_assoc.
Qed.

(** The closure pushes exactly the matching entities of the subtree, in
    pre-order. *)
Lemma searchRecursive_filter (e : CatalogEntity) :
  forall results,
    searchRecursive toLowerCase searchTerm e results
    = results ++ filter (isMatch toLowerCase searchTerm) (Contract.preorder e).
Proof.
  induction e as [i p|i p cs IH] using CatalogEntity_children_ind; intros results;
    rewrite searchRecursive_unfold; cbv zeta; cbn [Contract.preorder children filter].
  - destruct (isMatch _ _ _); [reflexivity|now rewrite app_nil_r].
  - rewrite (searchEach_filter cs IH).
    destruct (isMatch _ _ _); [now rewrite <- app_assoc|reflexivity].
Qed.

Lemma searchRoot_filter (rootCatalog : ResponseData) :
  searchRoot toLowerCase searchTerm rootCatalog
  = filter (isMatch toLowerCase searchTerm) (entitiesOf rootCatalog).
Proof.
  unfold searchRoot, entitiesOf.
  destruct (data_data rootCatalog) as [[entities|entity]|].
  - rewrite searchEach_filter; [reflexivity|].
    apply Forall_forall. intros e _. apply searchRecursive_filter.
  - now rewrite searchRecursive_filter.
  - cbn [searchEach]. rewrite searchRecursive_filter. reflexivity.
Qed.

End Search.

(** C8.  Whatever shape the root catalog response has (a bare entity, or
    an envelope with a list of entities), [searchCatalog] returns, without
    throwing, the entities of the response in depth-first order that match:
    an entity without a path or with an empty path never matches, and an
    entity with a non-empty path matches exactly when its last segment
    contains the search term, both lower-cased.  The only error it can
    raise is the transport error of the catalog request itself. *)
Theorem searchCatalog_spec :
  forall (B : Type) (serve : B -> Request -> Reply * B)
         (toLowerCase : jsstring -> jsstring) (b : B) (searchTerm : jsstring),
    match fst (serve b (GET (js "/api/v3/catalog") None)) with
    | Ok rootCatalog =>
      fst (run (searchCatalog serve toLowerCase searchTerm) b)
      = Return (filter (isMatch toLowerCase searchTerm) (entitiesOf rootCatalog))
    | Reject message response =>
      fst (run (searchCatalog serve toLowerCase searchTerm) b)
      = Throw (AxiosError message response)
    end
    /\ (forall i cs, isMatch toLowerCase searchTerm (mkEntity i None cs) = false)
    /\ (forall i cs, isMatch toLowerCase searchTerm (mkEntity i (Some []) cs) = false)
    /\ (forall i seg segs cs,
           isMatch toLowerCase searchTerm (mkEntity i (Some (seg :: segs)) cs)
           = includes (toLowerCase (last (seg :: segs) [])) (toLowerCase searchTerm)).
Proof.
  intros B serve toLowerCase b searchTerm.
  split; [|repeat split].
  unfold run, searchCatalog, getCatalog, bind, request. cbn [catalogUrl backend trace].
  destruct (serve b (GET (js "/api/v3/catalog") None)) as [[rootCatalog|m r] b'];
    cbn [fst]; [|reflexivity].
  unfold ret. cbn [fst]. now rewrite searchRoot_filter.
Qed.

Lemma searchCatalog_spec_example :
  fst (run (searchCatalog Sample.scripted Sample.asciiLower (js "ORDER")) [Ok Sample.listing])
  = Return [Sample.orders; mkEntity (js "6") (Some [js "border"]) None].
Proof.
  pose proof (searchCatalog_spec _ Sample.scripted Sample.asciiLower
                                 [Ok Sample.listing] (js "ORDER")) as [H _].
  exact H.
Defined.

(** ** The earlier revision *)

(** What the earlier revision of the client does instead, on the inputs
    the bug report of the repository names. *)
Lemma legacy_differs :
  Legacy.catalogUrl (Some [js "a"; js "b/c"]) = inr (js "/api/v3/catalog/a%2Fb%2Fc")
  /\ Legacy.schemaQuery [js "s"; js "t"]
     = js "SELECT * FROM s.t LIMIT 0"
  /\ fst (run (Legacy.searchCatalog Sample.scripted Sample.asciiLower (js "ORDER"))
              [Ok Sample.listing])
     = Throw TypeError
  /\ trace (snd (run (Legacy.explainQuery Sample.scripted (js "DELETE FROM t")) []))
     = [Exchange (POST (js "/api/v3/sql") (js "EXPLAIN PLAN FOR DELETE FROM t"))
                 (Reject (js "Network Error") None)]
  /\ limitsWithin 500
       (trace (snd (run (Legacy.executeQuery Sample.scripted (js "SELECT 1") None)
                        Sample.overServing)))
     = false.
Proof. repeat split; reflexivity. Qed.

(* ================================================================== *)
(** * Further properties of the code *)
(* ================================================================== *)

Import Measure.

(** ** [trim] *)

Lemma trimStart_whitespace (ws s : jsstring) :
  forallb isWhiteSpace ws = true -> trimStart (ws ++ s) = trimStart s.
Proof.
  induction ws as [|c ws IH]; intros H; [reflexivity|].
  cbn in H. apply andb_true_iff in H as [Hc Hws].
  cbn [app trimStart]. rewrite Hc. now apply IH.
Qed.

Lemma trimStart_all_whitespace (ws : jsstring) :
  forallb isWhiteSpace ws = true -> trimStart ws = [].
Proof.
  intros H. rewrite <- (app_nil_r ws). now rewrite trimStart_whitespace.
Qed.

Lemma trimStart_fixed (c : codeunit) (s : jsstring) :
  isWhiteSpace c = false -> trimStart (c :: s) = c :: s.
Proof. intros H. cbn. now rewrite H. Qed.

(** What [trimStart] leaves is a suffix that does not begin with
    whitespace. *)
Lemma trimStart_suffix (s : jsstring) :
  exists ws, s = ws ++ trimStart s /\ forallb isWhiteSpace ws = true.
Proof.
  induction s as [|c s (ws & Hs & Hws)]; [now exists []|].
  cbn [trimStart]. destruct (isWhiteSpace c) eqn:Hc.
  - exists (c :: ws). split; [cbn; now f_equal|cbn; now rewrite Hc].
  - now exists [].
Qed.

Lemma trimStart_head (s : jsstring) :
  match trimStart s with
  | c :: _ => isWhiteSpace c = false
  | [] => True
  end.
Proof.
  induction s as [|c s IH]; [exact I|].
  cbn [trimStart]. destruct (isWhiteSpace c) eqn:Hc; [exact IH|exact Hc].
Qed.

Lemma trimStart_idempotent (s : jsstring) : trimStart (trimStart s) = trimStart s.
Proof.
  pose proof (trimStart_head s) as H.
  destruct (trimStart s) as [|c t]; [reflexivity|now apply trimStart_fixed].
Qed.

Lemma trimEnd_whitespace (s ws : jsstring) :
  forallb isWhiteSpace ws = true -> trimEnd (s ++ ws) = trimEnd s.
Proof.
  intros H. unfold trimEnd. rewrite rev_app_distr, trimStart_whitespace; [reflexivity|].
  rewrite forallb_forall in *. intros c Hc. apply H. now apply in_rev.
Qed.

(** What [trimEnd] leaves is a prefix. *)
Lemma trimEnd_prefix (s : jsstring) :
  exists ws, s = trimEnd s ++ ws /\ forallb isWhiteSpace ws = true.
Proof.
  destruct (trimStart_suffix (rev s)) as (ws & Hs & Hws).
  exists (rev ws). split.
  - unfold trimEnd. rewrite <- rev_app_distr, <- Hs. now rewrite rev_involutive.
  - rewrite forallb_forall in *. intros c Hc. apply Hws. now apply in_rev.
Qed.

Lemma trimEnd_idempotent (s : jsstring) : trimEnd (trimEnd s) = trimEnd s.
Proof.
  unfold trimEnd. now rewrite rev_involutive, trimStart_idempotent.
Qed.

(** A text that begins with a code unit that is not whitespace keeps it
    under [trimEnd]. *)
Lemma trimEnd_keeps_head (c : codeunit) (s : jsstring) :
  isWhiteSpace c = false -> exists t, trimEnd (c :: s) = c :: t.
Proof.
  intros Hc. destruct (trimEnd_prefix (c :: s)) as (ws & Hs & Hws).
  destruct (trimEnd (c :: s)) as [|c' t] eqn:E.
  - cbn in Hs. subst ws. cbn in Hws. now rewrite Hc in Hws.
  - cbn in Hs. injection Hs as <- _. now exists t.
Qed.

Lemma trim_idempotent (s : jsstring) : trim (trim s) = trim s.
Proof.
  unfold trim.
  assert (H : trimStart (trimEnd (trimStart s)) = trimEnd (trimStart s)).
  { pose proof (trimStart_head s) as Hh.
    destruct (trimStart s) as [|c t]; [reflexivity|].
    destruct (trimEnd_keeps_head c t Hh) as (t' & ->).
    now apply trimStart_fixed. }
  now rewrite H, trimEnd_idempotent.
Qed.

Lemma trim_padding (ws1 s ws2 : jsstring) :
  forallb isWhiteSpace ws1 = true -> forallb isWhiteSpace ws2 = true ->
  trim (ws1 ++ s ++ ws2) = trim s.
Proof.
  intros H1 H2. unfold trim. rewrite trimStart_whitespace by exact H1.
  induction s as [|c s IH].
  - cbn [app]. now rewrite trimStart_all_whitespace.
  - cbn [app trimStart]. destruct (isWhiteSpace c); [exact IH|].
    now rewrite app_comm_cons, trimEnd_whitespace.
Qed.

(** ** More on [isSelectQuery] *)

(** X1.  Whitespace around a text changes nothing: the verdict of
    [isSelectQuery] on the padded text is its verdict on the text. *)
Theorem isSelectQuery_padding :
  forall ws1 sql ws2 : jsstring,
    forallb isWhiteSpace ws1 = true ->
    forallb isWhiteSpace ws2 = true ->
    isSelectQuery (ws1 ++ sql ++ ws2) = isSelectQuery sql.
Proof.
  intros ws1 sql ws2 H1 H2. unfold isSelectQuery. now rewrite trim_padding.
Qed.

Lemma isSelectQuery_padding_witness :
  isSelectQuery ([LF; SPACE] ++ js "select 1" ++ [9; 13; LF]%N) = isSelectQuery (js "select 1").
Proof. apply isSelectQuery_padding; reflexivity. Defined.

Lemma lineScan_head (c : codeunit) (s : jsstring) :
  c <> DASH -> exists t, JS.lineScan false (c :: s) = c :: t.
Proof.
  intros Hc. cbn [JS.lineScan]. destruct s as [|d s']; [now exists []|].
  destruct (N.eqb_spec c DASH); [contradiction|]. cbn [andb]. eauto.
Qed.

Lemma blockScan_head (c : codeunit) (s : jsstring) :
  c <> SLASH -> exists t, blockScan false (c :: s) = c :: t.
Proof.
  intros Hc. cbn [blockScan]. destruct s as [|d s']; [now exists []|].
  destruct (N.eqb_spec c SLASH); [contradiction|]. cbn [andb]. eauto.
Qed.

(** X2.  A text whose first code unit after the leading whitespace is not
    one of [S], [s], [-] and [/] is rejected, whatever follows: no comment
    can open there, so that code unit is still first when SELECT is looked
    for. *)
Theorem isSelectQuery_first_code_unit :
  forall (sql : jsstring) (c : codeunit) (rest : jsstring),
    trimStart sql = c :: rest ->
    c <> 83%N -> c <> 115%N -> c <> DASH -> c <> SLASH ->
    isSelectQuery sql = false.
Proof.
  intros sql c rest Hsql HS Hs Hdash Hslash.
  assert (Hws : isWhiteSpace c = false).
  { pose proof (trimStart_head sql) as H. now rewrite Hsql in H. }
  unfold isSelectQuery, trim, stripLineComments, stripBlockComments. rewrite Hsql.
  destruct (trimEnd_keeps_head c rest Hws) as (t1 & ->).
  destruct (lineScan_head c t1 Hdash) as (t2 & ->).
  destruct (blockScan_head c t2 Hslash) as (t3 & ->).
  rewrite (trimStart_fixed c t3 Hws).
  destruct (trimEnd_keeps_head c t3 Hws) as (t4 & ->).
  unfold testSelect.
  destruct t4 as [|c2 [|c3 [|c4 [|c5 [|c6 [|w t4]]]]]]; try reflexivity.
  unfold eqIgnoreCase at 1.
  destruct (N.eqb_spec c 83); [contradiction|].
  destruct (N.eqb_spec c (83 + 32)); [contradiction|]. reflexivity.
Qed.

Lemma isSelectQuery_first_code_unit_witness :
  isSelectQuery (js "  DROP TABLE t") = false
  /\ isSelectQuery (js "delete from t -- SELECT 1") = false.
Proof.
  split.
  - apply (isSelectQuery_first_code_unit (js "  DROP TABLE t") 68%N (js "ROP TABLE t"));
      [reflexivity|discriminate..].
  - apply (isSelectQuery_first_code_unit (js "delete from t -- SELECT 1") 100%N
                                         (js "elete from t -- SELECT 1"));
      [reflexivity|discriminate..].
Defined.

Lemma startsWith_extend (p s x : jsstring) :
  startsWith s p = true -> startsWith (s ++ x) p = true.
Proof.
  revert s. induction p as [|c p IH]; intros s H; [reflexivity|].
  destruct s as [|d s]; [discriminate H|].
  cbn in H |- *. apply andb_true_iff in H as [-> H]. now apply IH.
Qed.

Lemma includes_extend (s x p : jsstring) :
  includes s p = true -> includes (s ++ x) p = true.
Proof.
  induction s as [|c s IH]; intros H.
  - cbn in H. rewrite orb_false_r in H.
    apply includes_here. now apply (startsWith_extend p [] x).
  - cbn [includes] in H. apply orb_true_iff in H as [H|H].
    + apply includes_here. now apply (startsWith_extend p (c :: s) x).
    + cbn [app includes]. rewrite (IH H). apply orb_true_r.
Qed.

Lemma includes_trim (s p : jsstring) :
  includes s p = false -> includes (trim s) p = false.
Proof.
  intros H. destruct (includes (trim s) p) eqn:E; [|reflexivity].
  unfold trim in E.
  destruct (trimStart_suffix s) as (ws & Hs & _).
  destruct (trimEnd_prefix (trimStart s)) as (ws' & Hs' & _).
  rewrite Hs, Hs' in H.
  now rewrite (includes_skip ws _ p (includes_extend _ ws' p E)) in H.
Qed.

Lemma lineScan_without_dashes (s : jsstring) :
  includes s [DASH; DASH] = false -> JS.lineScan false s = s.
Proof.
  induction s as [|c s IH]; intros H; [reflexivity|].
  cbn [includes] in H. apply orb_false_iff in H as [Hhere Hrest].
  cbn [JS.lineScan]. destruct s as [|d s']; [reflexivity|].
  cbn in Hhere. rewrite andb_true_r in Hhere. rewrite Hhere. cbn [andb].
  f_equal. now apply IH.
Qed.

Lemma blockScan_without_opener (s : jsstring) :
  includes s [SLASH; STAR] = false -> blockScan false s = s.
Proof.
  induction s as [|c s IH]; intros H; [reflexivity|].
  cbn [includes] in H. apply orb_false_iff in H as [Hhere Hrest].
  cbn [blockScan]. destruct s as [|d s']; [reflexivity|].
  cbn in Hhere. rewrite andb_true_r in Hhere. rewrite Hhere. cbn [andb].
  f_equal. now apply IH.
Qed.

(** X3.  On a text that holds neither [--] nor the block-comment opener,
    [isSelectQuery] is exact: it answers true precisely when the trimmed
    text begins with SELECT, in any case, followed by whitespace. *)
Theorem isSelectQuery_without_comments :
  forall sql : jsstring,
    includes sql (js "--") = false ->
    includes sql (js "/*") = false ->
    isSelectQuery sql = testSelect (trim sql).
Proof.
  intros sql Hline Hblock.
  unfold isSelectQuery, stripLineComments, stripBlockComments.
  rewrite lineScan_without_dashes by (now apply includes_trim).
  rewrite blockScan_without_opener by (now apply includes_trim).
  now rewrite trim_idempotent.
Qed.

Lemma isSelectQuery_without_comments_witness :
  isSelectQuery (js " Select a - b, c / d FROM t ") = testSelect (js "Select a - b, c / d FROM t").
Proof. apply isSelectQuery_without_comments; reflexivity. Defined.

(** ** Table references read back *)

Section ReadBack.

Local Abbreviation double :=
  (fun c : codeunit => if N.eqb c DQUOTE then [DQUOTE; DQUOTE] else [c]).

Lemma read_escaped_body (s : jsstring) :
  forall done current rest,
    Sql.readIdentifiers Sql.InIdentifier done current
                        (flat_map double s ++ DQUOTE :: rest)
    = Sql.readIdentifiers Sql.AfterQuote done (rev s ++ current) rest.
Proof.
  induction s as [|c s IH]; intros done current rest.
  - cbn. reflexivity.
  - cbn [flat_map rev]. rewrite <- !app_assoc. cbn [app].
    destruct (N.eqb_spec c DQUOTE) as [->|Hc].
    + cbn [app Sql.readIdentifiers].
      change (N.eqb DQUOTE DQUOTE) with true. cbn iota. apply IH.
    + cbn [app Sql.readIdentifiers].
      destruct (N.eqb_spec c DQUOTE); [contradiction|]. apply IH.
Qed.

Lemma read_escaped (s : jsstring) (done : list jsstring) (rest : jsstring) :
  Sql.readIdentifiers Sql.AtStart done [] (escapeIdentifier s ++ rest)
  = Sql.readIdentifiers Sql.AfterQuote done (rev s) rest.
Proof.
  unfold escapeIdentifier. cbn [app Sql.readIdentifiers]. rewrite N.eqb_refl.
  rewrite <- app_assoc. cbn [app]. rewrite read_escaped_body. now rewrite app_nil_r.
Qed.

Lemma read_joined (segs : list jsstring) :
  forall done,
    segs <> [] ->
    Sql.readIdentifiers Sql.AtStart done [] (join [DOT] (map escapeIdentifier segs))
    = Some (rev done ++ segs).
Proof.
  induction segs as [|s segs IH]; intros done Hne; [contradiction|].
  destruct segs as [|s' segs].
  - cbn [map join]. rewrite <- (app_nil_r (escapeIdentifier s)), read_escaped.
    cbn. now rewrite rev_involutive.
  - change (join [DOT] (map escapeIdentifier (s :: s' :: segs)))
      with (escapeIdentifier s ++ [DOT] ++ join [DOT] (map escapeIdentifier (s' :: segs))).
    rewrite read_escaped. cbn [app Sql.readIdentifiers].
    change (N.eqb DOT DQUOTE) with false. cbn iota. rewrite N.eqb_refl.
    rewrite rev_involutive, IH by discriminate.
    cbn [rev]. now rewrite <- app_assoc.
Qed.

End ReadBack.

Lemma buildTableReference_valid (tablePath : list jsval) :
  tablePath <> [] ->
  forallb validSegment tablePath = true ->
  exists segs : list jsstring,
    tablePath = map VString segs
    /\ buildTableReference (Some tablePath) = inr (join [DOT] (map escapeIdentifier segs)).
Proof.
  intros Hne Hok.
  destruct (valid_path_strings tablePath Hok) as (segs & -> & _).
  exists segs. split; [reflexivity|].
  unfold buildTableReference.
  destruct segs as [|s segs]; [contradiction|].
  cbn [map List.length Nat.eqb].
  change (VString s :: map VString segs) with (map VString (s :: segs)) in *.
  rewrite invalid_found, Hok. cbn [negb]. now rewrite mapThrowing_strings.
Qed.

Lemma buildTableReference_invalid (tablePath : list jsval) :
  tablePath <> [] ->
  forallb validSegment tablePath = false ->
  buildTableReference (Some tablePath) = inl (Error (js "Invalid table path component")).
Proof.
  intros Hne Hbad. unfold buildTableReference.
  destruct tablePath as [|v l]; [contradiction|].
  cbn [List.length Nat.eqb]. rewrite invalid_found, Hbad. reflexivity.
Qed.

Lemma map_VString_injective (a b : list jsstring) :
  map VString a = map VString b -> a = b.
Proof.
  revert b. induction a as [|x a IH]; intros [|y b] H; try discriminate H; [reflexivity|].
  cbn in H. injection H as -> H. f_equal. now apply IH.
Qed.

(** X4.  A table reference built by [buildTableReference] reads back, as
    SQL lexes quoted identifiers, into exactly the segments it was built
    from; so two different table paths never give the same reference. *)
Theorem buildTableReference_reads_back :
  forall (tablePath : list jsval) (tableRef : jsstring),
    buildTableReference (Some tablePath) = inr tableRef ->
    (exists segs,
        tablePath = map VString segs
        /\ Sql.readTableReference tableRef = Some segs)
    /\ (forall other,
           buildTableReference (Some other) = inr tableRef -> other = tablePath).
Proof.
  assert (Hread : forall tablePath tableRef,
             buildTableReference (Some tablePath) = inr tableRef ->
             exists segs, tablePath = map VString segs
                          /\ Sql.readTableReference tableRef = Some segs).
  { intros tablePath tableRef H.
    destruct tablePath as [|v l] eqn:Ep; [discriminate H|]. rewrite <- Ep in *.
    assert (Hne : tablePath <> []) by (rewrite Ep; discriminate).
    destruct (forallb validSegment tablePath) eqn:Hok.
    - destruct buildTableReference_valid with (tablePath := tablePath)
        as (segs & Hsegs & Hres); [exact Hne|exact Hok|].
      exists segs. split; [exact Hsegs|].
      rewrite Hres in H. injection H as <-.
      unfold Sql.readTableReference. rewrite read_joined; [reflexivity|].
      intros ->. now subst tablePath.
    - rewrite (buildTableReference_invalid tablePath Hne Hok) in H. discriminate H. }
  intros tablePath tableRef H. split; [now apply Hread|].
  intros other Hother.
  destruct (Hread _ _ H) as (segs & -> & Hs).
  destruct (Hread _ _ Hother) as (segs' & -> & Hs').
  rewrite Hs in Hs'. now injection Hs' as ->.
Qed.

Lemma buildTableReference_reads_back_witness :
  (exists segs,
      [VString (js "my.space"); VString [97; 34; 98]%N] = map VString segs
      /\ Sql.readTableReference
           ([34] ++ js "my.space" ++ [34; 46; 34; 97; 34; 34; 98; 34])%N = Some segs)
  /\ (forall other,
         buildTableReference (Some other)
         = inr ([34] ++ js "my.space" ++ [34; 46; 34; 97; 34; 34; 98; 34])%N ->
         other = [VString (js "my.space"); VString [97; 34; 98]%N]).
Proof.
  exact (buildTableReference_reads_back
           [VString (js "my.space"); VString [97; 34; 98]%N] _ eq_refl).
Defined.

(** ** More on catalog URLs *)

Lemma encode_unreserved (s : jsstring) :
  forallb isUnreserved s = true -> encodeURIComponent s = Some s.
Proof.
  induction s as [|c s IH]; intros H; [reflexivity|].
  cbn in H. apply andb_true_iff in H as [Hc Hs].
  cbn [encodeURIComponent]. now rewrite Hc, IH.
Qed.

Lemma mapThrowing_unreserved (segs : list jsstring) :
  forallb (forallb isUnreserved) segs = true ->
  mapThrowing encodeSegment segs = inr segs.
Proof.
  induction segs as [|s segs IH]; intros H; [reflexivity|].
  cbn in H. apply andb_true_iff in H as [Hs Hsegs].
  cbn [mapThrowing]. unfold encodeSegment at 1.
  now rewrite (encode_unreserved s Hs), IH.
Qed.

(** X5.  Path segments made of unreserved characters only (letters,
    digits and [- _ . ! ~ * ' ( )]) go into the catalog URL unchanged: the
    URL is the catalog prefix followed by the segments joined by slashes. *)
Theorem catalogUrl_plain_names :
  forall (p : jsstring) (ps : list jsstring),
    forallb (forallb isUnreserved) (p :: ps) = true ->
    catalogUrl (Some (p :: ps)) = inr (js "/api/v3/catalog/" ++ join [SLASH] (p :: ps)).
Proof.
  intros p ps H. unfold catalogUrl. now rewrite mapThrowing_unreserved.
Qed.

Lemma catalogUrl_plain_names_witness :
  catalogUrl (Some [js "ulysses1"; js "arpu"; js "aug_electric_vehicle_transaction"])
  = inr (js "/api/v3/catalog/ulysses1/arpu/aug_electric_vehicle_transaction").
Proof.
  apply (catalogUrl_plain_names (js "ulysses1") [js "arpu"; js "aug_electric_vehicle_transaction"]).
  reflexivity.
Defined.

Section UrlSafe.

Local Open Scope N_scope.

Lemma hexDigit_unreserved (n : N) : n < 16 -> isUnreserved (hexDigit n) = true.
Proof.
  intros H. unfold hexDigit, isUnreserved.
  destruct (N.ltb_spec n 10) as [Hdigit|Hletter].
  - assert (Hrange : (48 <=? 48 + n) && (48 + n <=? 57) = true)
      by (apply andb_true_iff; split; apply N.leb_le; lia).
    rewrite Hrange, orb_true_r. reflexivity.
  - assert (Hrange : (65 <=? 55 + n) && (55 + n <=? 90) = true)
      by (apply andb_true_iff; split; apply N.leb_le; lia).
    rewrite Hrange. reflexivity.
Qed.

Lemma pctOctet_safe (b : N) : b < 256 -> forallb urlSafe (pctOctet b) = true.
Proof.
  intros H. unfold pctOctet. cbn [forallb]. unfold urlSafe at 2 3.
  rewrite !hexDigit_unreserved; [reflexivity|..].
  - apply N.mod_lt. discriminate.
  - apply N.Div0.div_lt_upper_bound. exact H.
Qed.

Lemma utf8_octets (cp : N) : cp < 1114112 -> Forall (fun b => b < 256) (utf8 cp).
Proof.
  intros H. unfold utf8.
  assert (H64 : cp mod 64 < 64) by (apply N.mod_lt; discriminate).
  assert (H64' : (cp / 64) mod 64 < 64) by (apply N.mod_lt; discriminate).
  assert (H4096 : (cp / 4096) mod 64 < 64) by (apply N.mod_lt; discriminate).
  destruct (N.ltb_spec cp 128); [repeat constructor; lia|].
  destruct (N.ltb_spec cp 2048).
  { assert (cp / 64 < 32) by (apply N.Div0.div_lt_upper_bound; lia).
    repeat constructor; lia. }
  destruct (N.ltb_spec cp 65536).
  { assert (cp / 4096 < 16) by (apply N.Div0.div_lt_upper_bound; lia).
    repeat constructor; lia. }
  assert (cp / 262144 < 5) by (apply N.Div0.div_lt_upper_bound; lia).
  repeat constructor; lia.
Qed.

Lemma pctEncode_safe (cp : N) : cp < 1114112 -> forallb urlSafe (pctEncode cp) = true.
Proof.
  intros H. unfold pctEncode.
  induction (utf8_octets cp H) as [|b l Hb _ IH]; [reflexivity|].
  cbn [flat_map]. rewrite forallb_app, IH, (pctOctet_safe b Hb). reflexivity.
Qed.

Lemma encode_safe_bounded (n : nat) :
  forall s e,
    (List.length s <= n)%nat -> wellFormed s = true ->
    encodeURIComponent s = Some e -> forallb urlSafe e = true.
Proof.
  induction n as [|n IH]; intros s e Hlen Hwf Henc.
  - destruct s; [|cbn in Hlen; lia]. now injection Henc as <-.
  - destruct s as [|c t]; [now injection Henc as <-|].
    cbn in Hlen. cbn [wellFormed forallb] in Hwf.
    apply andb_true_iff in Hwf as [Hc Ht]. apply N.ltb_lt in Hc.
    cbn [encodeURIComponent] in Henc.
    destruct (isUnreserved c) eqn:Hu.
    + destruct (encodeURIComponent t) as [e'|] eqn:Et; [|discriminate].
      injection Henc as <-. cbn [forallb]. unfold urlSafe at 1. rewrite Hu.
      apply (IH t); [lia|exact Ht|exact Et].
    + destruct (isLowSurrogate c); [discriminate|].
      destruct (isHighSurrogate c) eqn:Hh.
      * destruct t as [|d t']; [discriminate|].
        destruct (isLowSurrogate d) eqn:Hl; [|discriminate].
        destruct (encodeURIComponent t') as [e'|] eqn:Et; [|discriminate].
        injection Henc as <-. rewrite forallb_app.
        cbn [forallb] in Ht. apply andb_true_iff in Ht as [_ Ht'].
        rewrite (IH t' e'); [|cbn in Hlen; lia|exact Ht'|exact Et].
        rewrite pctEncode_safe; [reflexivity|].
        unfold isHighSurrogate in Hh. unfold isLowSurrogate in Hl.
        apply andb_true_iff in Hh as [_ Hh]. apply andb_true_iff in Hl as [_ Hl].
        apply N.leb_le in Hh, Hl. lia.
      * destruct (encodeURIComponent t) as [e'|] eqn:Et; [|discriminate].
        injection Henc as <-. rewrite forallb_app.
        rewrite (IH t e'); [|lia|exact Ht|exact Et].
        rewrite pctEncode_safe; [reflexivity|lia].
Qed.

Lemma mapThrowing_safe (segs encoded : list jsstring) :
  forallb wellFormed segs = true ->
  mapThrowing encodeSegment segs = inr encoded ->
  forallb (forallb urlSafe) encoded = true.
Proof.
  revert encoded. induction segs as [|s segs IH]; intros encoded Hwf H.
  - now injection H as <-.
  - cbn in Hwf. apply andb_true_iff in Hwf as [Hs Hsegs].
    cbn [mapThrowing] in H. unfold encodeSegment at 1 in H.
    destruct (encodeURIComponent s) as [e|] eqn:Es; [|discriminate H].
    destruct (mapThrowing encodeSegment segs) as [|es]; [discriminate H|].
    injection H as <-. cbn [forallb]. rewrite (IH es Hsegs eq_refl).
    now rewrite (encode_safe_bounded (List.length s) s e (le_n _) Hs Es).
Qed.

Lemma join_safe (encoded : list jsstring) :
  forallb (forallb urlSafe) encoded = true ->
  forallb urlSafe (join [SLASH] encoded) = true.
Proof.
  induction encoded as [|e rest IH]; intros H; [reflexivity|].
  cbn in H. apply andb_true_iff in H as [He Hrest].
  destruct rest as [|e' rest']; [exact He|].
  change (join [SLASH] (e :: e' :: rest')) with (e ++ [SLASH] ++ join [SLASH] (e' :: rest')).
  rewrite !forallb_app, He, (IH Hrest). reflexivity.
Qed.

End UrlSafe.

(** X6.  Whatever the path segments hold (any 16-bit code units), a URL
    that [getCatalog] computes is made of ASCII letters, digits, the marks
    [- _ . ! ~ * ' ( )], percent signs and slashes only: no [?], [#],
    whitespace or non-ASCII code unit ever reaches the request line. *)
Theorem catalogUrl_safe_characters :
  forall (path : list jsstring) (url : jsstring),
    forallb wellFormed path = true ->
    catalogUrl (Some path) = inr url ->
    forallb urlSafe url = true.
Proof.
  intros path url Hwf H. unfold catalogUrl in H.
  destruct path as [|p ps]; [now injection H as <-|].
  destruct (mapThrowing encodeSegment (p :: ps)) as [|encoded] eqn:Hmap; [discriminate H|].
  injection H as <-.
  change (forallb urlSafe (js "/api/v3/catalog/" ++ join [SLASH] encoded) = true).
  rewrite forallb_app.
  rewrite (join_safe encoded (mapThrowing_safe _ _ Hwf Hmap)). reflexivity.
Qed.

Lemma catalogUrl_safe_characters_witness :
  forallb urlSafe (js "/api/v3/catalog/a%3Fb%23c/d%20e%2Ff") = true.
Proof.
  apply (catalogUrl_safe_characters [js "a?b#c"; js "d e/f"]); reflexivity.
Defined.

(** ** More on [executeQuery] *)

Lemma Polling_rejected st att replies o message response :
  Polling st att replies o ->
  In (Reject message response) replies ->
  o = Throw (AxiosError message response).
Proof.
  induction 1 as [| |st att m r Hst Hlt|st att d Hst Hlt Hf
                  |st att d replies o Hst Hlt Hf Hp IH]; intros Hin.
  - destruct Hin.
  - destruct Hin.
  - destruct Hin as [H|[]]. now injection H as -> ->.
  - destruct Hin as [H|[]]. discriminate H.
  - destruct Hin as [H|H]; [discriminate H|now apply IH].
Qed.

Lemma Polling_return_last st att replies st' :
  Polling st att replies (Return st') ->
  isInFlight st = true ->
  exists pre d, replies = pre ++ [Ok d] /\ data_jobState d = st'.
Proof.
  intros H. remember (Return st') as o eqn:Ho. revert Ho.
  induction H as [st att Hst| | | |st att d replies o Hst Hlt Hf Hp IH];
    intros Ho Hin; try discriminate Ho.
  - congruence.
  - subst o. destruct (isInFlight (data_jobState d)) eqn:Hd.
    + destruct (IH eq_refl eq_refl) as (pre & d' & -> & Hd').
      now exists (Ok d :: pre), d'.
    + inversion Hp; subst; try congruence. now exists [], d.
Qed.

Lemma Polling_terminal st att replies o d :
  Polling st att replies o ->
  In (Ok d) replies ->
  isInFlight (data_jobState d) = false ->
  isFailure (data_jobState d) = false ->
  o = Return (data_jobState d).
Proof.
  induction 1 as [| | |st att d' Hst Hlt Hf|st att d' replies o Hst Hlt Hf Hp IH];
    intros Hin Hd Hnf.
  - destruct Hin.
  - destruct Hin.
  - destruct Hin as [Heq|[]]. discriminate Heq.
  - destruct Hin as [Heq|[]]. injection Heq as ->. congruence.
  - destruct Hin as [Heq|Hin]; [|now apply IH].
    injection Heq as ->. inversion Hp; subst; try congruence.
Qed.

Lemma strictEq_true (field : option jsstring) (lit : jsstring) :
  strictEq field lit = true -> field = Some lit.
Proof.
  unfold strictEq. destruct field as [s|]; [|discriminate].
  destruct (list_eq_dec N.eq_dec s lit) as [->|]; [reflexivity|discriminate].
Qed.

Lemma polls_app (jobId : option jsstring) (l l' : list Reply) :
  polls jobId (l ++ l') = polls jobId l ++ polls jobId l'.
Proof. unfold polls. apply flat_map_app. Qed.

Lemma polls_any_reply (jobId : option jsstring) (replies : list Reply) req rep :
  In (Exchange req rep) (polls jobId replies) -> In rep replies.
Proof.
  induction replies as [|rep' replies IH]; [intros []|].
  rewrite polls_cons. cbn [In]. intros [H|[H|H]].
  - discriminate H.
  - left. now injection H.
  - right. now apply IH.
Qed.

(** X7.  A request of [executeQuery] that axios rejects, be it the
    submission, a status fetch or the results fetch, ends the call: with an
    HTTP response the error thrown is a plain Error whose message carries
    the axios message, the status and the response body; without one (no
    answer from the server) the axios error is rethrown as it is. *)
Theorem executeQuery_rejected_request :
  forall (B : Type) (serve : B -> Request -> Reply * B) (b : B)
         (sql : jsstring) (maxRows : option Z)
         (req : Request) (message : jsstring) (response : option (jsstring * jsstring)),
    In (Exchange req (Reject message response))
       (trace (snd (run (executeQuery serve sql maxRows) b))) ->
    fst (run (executeQuery serve sql maxRows) b)
    = Throw match response with
            | Some (status, body) =>
              Error (js "Query failed: " ++ message ++ js ". Status: " ++ status
                     ++ js ". Data: " ++ body)
            | None => AxiosError message None
            end.
Proof.
  intros B serve b sql maxRows req message response.
  enough (Hcaught : In (Exchange req (Reject message response))
                       (trace (snd (run (executeQuery serve sql maxRows) b))) ->
                    fst (run (executeQuery serve sql maxRows) b)
                    = Throw (caught (AxiosError message response))).
  { intros Hin. rewrite (Hcaught Hin). now destruct response as [[status body]|]. }
  pose proof (executeQuery_run B serve sql maxRows b) as Hrun.
  destruct Hrun as [m r|d0 replies e Hp|d0 replies st Hp Hc
                    |d0 replies st m r Hp Hc|d0 replies st d Hp Hc];
    intros Hin; cbn [In] in Hin.
  - destruct Hin as [H|[]]. now injection H as _ -> ->.
  - destruct Hin as [H|H]; [discriminate H|].
    apply polls_any_reply in H.
    pose proof (Polling_rejected _ _ _ _ _ _ Hp H) as He. now injection He as ->.
  - destruct Hin as [H|H]; [discriminate H|].
    apply polls_any_reply in H.
    pose proof (Polling_rejected _ _ _ _ _ _ Hp H) as He. discriminate He.
  - destruct Hin as [H|H]; [discriminate H|].
    apply in_app_iff in H as [H|[H|[]]].
    + apply polls_any_reply in H.
      pose proof (Polling_rejected _ _ _ _ _ _ Hp H) as He. discriminate He.
    + now injection H as _ -> ->.
  - destruct Hin as [H|H]; [discriminate H|].
    apply in_app_iff in H as [H|[H|[]]]; [|discriminate H].
    apply polls_any_reply in H.
    pose proof (Polling_rejected _ _ _ _ _ _ Hp H) as He. discriminate He.
Qed.

Lemma executeQuery_rejected_request_witness :
  fst (run (executeQuery Sample.scripted (js "SELECT 1") None)
           [Ok (Sample.submitted (js "job-1"));
            Reject (js "Request failed with status code 401")
                   (Some (js "401", js "{}"))])
  = Throw (Error (js "Query failed: Request failed with status code 401. Status: 401. Data: {}")).
Proof.
  apply (executeQuery_rejected_request
           _ Sample.scripted _ (js "SELECT 1") None
           (GET (js "/api/v3/job/job-1") None)
           (js "Request failed with status code 401") (Some (js "401", js "{}"))).
  vm_compute. right. right. left. reflexivity.
Defined.

(** X8.  [executeQuery] returns a result only when the last status fetch
    reported COMPLETED and the results fetch that follows it succeeded; the
    result is then built from that page, a missing [rowCount], [schema] or
    [rows] standing for 0 and the empty list. *)
Theorem executeQuery_returns_after_completed :
  forall (B : Type) (serve : B -> Request -> Reply * B) (b : B)
         (sql : jsstring) (maxRows : option Z) (q : QueryResult),
    fst (run (executeQuery serve sql maxRows) b) = Return q ->
    exists pre jobId d page,
      trace (snd (run (executeQuery serve sql maxRows) b))
      = pre ++ [Exchange (GET (statusUrl jobId) None) (Ok d);
                Exchange (GET (resultsUrl jobId) (Some (clamp maxRows))) (Ok page)]
      /\ data_jobState d = Some (js "COMPLETED")
      /\ rowCount q = match data_rowCount page with Some n => n | None => 0%Z end
      /\ schema q = match data_schema page with Some fields => fields | None => [] end
      /\ rows q = match data_rows page with Some r => r | None => [] end.
Proof.
  intros B serve b sql maxRows q.
  pose proof (executeQuery_run B serve sql maxRows b) as Hrun.
  destruct Hrun as [m r|d0 replies e Hp|d0 replies st Hp Hc
                    |d0 replies st m r Hp Hc|d0 replies st d Hp Hc];
    intros Hq; try discriminate Hq.
  injection Hq as <-.
  destruct (Polling_return_last _ _ _ _ Hp eq_refl) as (pre & dlast & -> & Hlast).
  apply strictEq_true in Hc. subst st.
  exists (Exchange (POST (js "/api/v3/sql") sql) (Ok d0) :: polls (data_id d0) pre
          ++ [Sleep 1000]), (data_id d0), dlast, d.
  split.
  - rewrite polls_app. cbn [polls flat_map app]. rewrite <- !app_assoc. reflexivity.
  - split; [exact Hlast|]. split; [reflexivity|]. split; [|reflexivity].
    cbn [schema resultOf]. destruct (data_schema d) as [fields|]; [|reflexivity].
    rewrite <- (map_id fields) at 2. apply map_ext. now intros [n t].
Qed.

Lemma executeQuery_returns_after_completed_witness :
  exists pre jobId d page,
    trace (snd (run (executeQuery Sample.scripted (js "SELECT 1") (Some 2%Z))
                    Sample.overServing))
    = pre ++ [Exchange (GET (statusUrl jobId) None) (Ok d);
              Exchange (GET (resultsUrl jobId) (Some 2%Z)) (Ok page)]
    /\ data_jobState d = Some (js "COMPLETED").
Proof.
  destruct (executeQuery_returns_after_completed
              _ Sample.scripted Sample.overServing (js "SELECT 1") (Some 2%Z) _ eq_refl)
    as (pre & jobId & d & page & Htrace & Hstate & _).
  now exists pre, jobId, d, page.
Defined.

Lemma sleptMs_app (l l' : list Event) : sleptMs (l ++ l') = (sleptMs l + sleptMs l')%N.
Proof.
  induction l as [|[req rep|ms] l IH]; cbn [app sleptMs]; [reflexivity|exact IH|].
  rewrite IH. lia.
Qed.

Lemma sleptMs_polls (jobId : option jsstring) (replies : list Reply) :
  sleptMs (polls jobId replies) = (1000 * N.of_nat (List.length replies))%N.
Proof.
  induction replies as [|rep replies IH]; [reflexivity|].
  rewrite polls_cons. cbn [sleptMs List.length]. rewrite IH. lia.
Qed.

Lemma paced_polls (jobId : option jsstring) (replies : list Reply) (rest : list Event) :
  paced (polls jobId replies ++ rest) = paced rest.
Proof.
  induction replies as [|rep replies IH]; [reflexivity|].
  rewrite polls_cons. cbn [app paced]. rewrite IH. reflexivity.
Qed.

(** In a paced trace a sleep lasts 1000 ms and a GET without [limit]
    follows it at once. *)
Lemma paced_sleep (pre : list Event) (ms : N) (post : list Event) :
  paced (pre ++ Sleep ms :: post) = true ->
  ms = 1000%N /\ exists url rep post', post = Exchange (GET url None) rep :: post'.
Proof.
  remember (List.length pre) as n eqn:Hn.
  assert (Hle : List.length pre <= n) by lia. clear Hn. revert pre Hle.
  induction n as [|n IH]; intros pre Hle H.
  - destruct pre as [|ev pre]; [|cbn [List.length] in Hle; lia].
    cbn [app paced] in H. apply andb_true_iff in H as [Hms H].
    apply N.eqb_eq in Hms. split; [exact Hms|].
    destruct post as [|[[url [limit|]|url sql] rep|ms'] post']; try discriminate H.
    now exists url, rep, post'.
  - destruct pre as [|ev pre].
    + cbn [app paced] in H. apply andb_true_iff in H as [Hms H].
      apply N.eqb_eq in Hms. split; [exact Hms|].
      destruct post as [|[[url [limit|]|url sql] rep|ms'] post']; try discriminate H.
      now exists url, rep, post'.
    + cbn [List.length] in Hle.
      destruct ev as [[url [limit|]|url sql] rep|ms']; cbn [app paced] in H.
      * apply (IH pre); [lia|exact H].
      * discriminate H.
      * apply (IH pre); [lia|exact H].
      * apply andb_true_iff in H as [_ H].
        destruct pre as [|[[url [limit|]|url sql] rep|ms''] pre];
          cbn [app] in H; try discriminate H.
        cbn [List.length] in Hle. apply (IH pre); [lia|exact H].
Qed.

(** In a paced trace a GET without [limit] has a sleep of 1000 ms right
    before it. *)
Lemma paced_fetch (pre : list Event) (url : jsstring) (rep : Reply) (post : list Event) :
  paced (pre ++ Exchange (GET url None) rep :: post) = true ->
  exists pre', pre = pre' ++ [Sleep 1000].
Proof.
  remember (List.length pre) as n eqn:Hn.
  assert (Hle : List.length pre <= n) by lia. clear Hn. revert pre Hle.
  induction n as [|n IH]; intros pre Hle H.
  - destruct pre as [|ev pre]; [|cbn [List.length] in Hle; lia].
    discriminate H.
  - destruct pre as [|ev pre]; [discriminate H|].
    cbn [List.length] in Hle.
    destruct ev as [[url' [limit|]|url' sql] rep'|ms]; cbn [app paced] in H.
    + destruct (IH pre) as (pre' & ->); [lia|exact H|]. now eexists (_ :: pre').
    + discriminate H.
    + destruct (IH pre) as (pre' & ->); [lia|exact H|]. now eexists (_ :: pre').
    + apply andb_true_iff in H as [Hms H]. apply N.eqb_eq in Hms. subst ms.
      destruct pre as [|[[url' [limit|]|url' sql] rep'|ms'] pre];
        cbn [app] in H; try discriminate H.
      * now exists [].
      * cbn [List.length] in Hle.
        destruct (IH pre) as (pre' & ->); [lia|exact H|].
        now eexists (_ :: _ :: pre').
Qed.

(** Every trace of [executeQuery] is paced. *)
Lemma QueryRun_paced (sql : jsstring) (limit : Z) (tr : list Event)
      (o : Outcome QueryResult) :
  QueryRun sql limit tr o -> paced tr = true.
Proof.
  intros [m r|d0 replies e Hp|d0 replies st Hp Hc
          |d0 replies st m r Hp Hc|d0 replies st d Hp Hc];
    cbn [paced]; [reflexivity| | | |];
    try (now rewrite paced_polls);
    rewrite <- (app_nil_r (polls _ _)); now rewrite paced_polls.
Qed.

(** X9.  [executeQuery] sleeps one second before each status fetch and at
    no other time.  In the trace of a call every sleep lasts 1000 ms and
    the event right after it is a status fetch, and every status fetch has
    a sleep of 1000 ms as the event right before it; so the time slept
    over a call is 1000 ms times the number of status fetches, at most 30
    seconds. *)
Theorem executeQuery_sleeps_per_poll :
  forall (B : Type) (serve : B -> Request -> Reply * B) (b : B)
         (sql : jsstring) (maxRows : option Z),
    sleptMs (trace (snd (run (executeQuery serve sql maxRows) b)))
    = (1000 * N.of_nat (count isStatusFetch
                              (trace (snd (run (executeQuery serve sql maxRows) b)))))%N
    /\ (sleptMs (trace (snd (run (executeQuery serve sql maxRows) b))) <= 30000)%N
    /\ paced (trace (snd (run (executeQuery serve sql maxRows) b))) = true
    /\ (forall pre ms post,
           trace (snd (run (executeQuery serve sql maxRows) b)) = pre ++ Sleep ms :: post ->
           ms = 1000%N
           /\ exists url rep post', post = Exchange (GET url None) rep :: post')
    /\ (forall pre url rep post,
           trace (snd (run (executeQuery serve sql maxRows) b))
           = pre ++ Exchange (GET url None) rep :: post ->
           exists pre', pre = pre' ++ [Sleep 1000]).
Proof.
  intros B serve b sql maxRows.
  pose proof (executeQuery_run B serve sql maxRows b) as Hrun.
  pose proof (QueryRun_paced _ _ _ _ Hrun) as Hpaced.
  assert (Htotal :
            sleptMs (trace (snd (run (executeQuery serve sql maxRows) b)))
            = (1000 * N.of_nat (count isStatusFetch
                                      (trace (snd (run (executeQuery serve sql maxRows) b)))))%N
            /\ (sleptMs (trace (snd (run (executeQuery serve sql maxRows) b))) <= 30000)%N).
  { destruct Hrun as [m r|d0 replies e Hp|d0 replies st Hp Hc
                      |d0 replies st m r Hp Hc|d0 replies st d Hp Hc];
      try (apply Polling_bounded in Hp; unfold maxAttempts in Hp);
      rewrite ?app_comm_cons;
      change (Exchange ?x ?y :: ?l) with ([Exchange x y] ++ l);
      rewrite ?count_app, ?sleptMs_app, ?count_polls_status, ?sleptMs_polls;
      cbn [sleptMs count filter isStatusFetch List.length app]; split; lia. }
  destruct Htotal as [Hsum Hmax].
  split; [exact Hsum|]. split; [exact Hmax|]. split; [exact Hpaced|]. split.
  - intros pre ms post Htr. rewrite Htr in Hpaced. exact (paced_sleep _ _ _ Hpaced).
  - intros pre url rep post Htr. rewrite Htr in Hpaced. exact (paced_fetch _ _ _ _ Hpaced).
Qed.

Lemma executeQuery_sleeps_per_poll_witness :
  sleptMs (trace (snd (run (executeQuery Sample.scripted (js "SELECT 1") None)
                           Sample.planned))) = 2000%N
  /\ (1000 = 1000
      /\ exists url rep post',
          skipn 4 (trace (snd (run (executeQuery Sample.scripted (js "SELECT 1") None)
                                   Sample.planned)))
          = Exchange (GET url None) rep :: post')%N
  /\ exists pre',
      firstn 4 (trace (snd (run (executeQuery Sample.scripted (js "SELECT 1") None)
                                Sample.planned)))
      = pre' ++ [Sleep 1000].
Proof.
  destruct (executeQuery_sleeps_per_poll _ Sample.scripted Sample.planned (js "SELECT 1") None)
    as (Hsum & _ & _ & Hsleep & Hfetch).
  split; [rewrite Hsum; reflexivity|]. split.
  - apply (Hsleep
             (firstn 3 (trace (snd (run (executeQuery Sample.scripted (js "SELECT 1") None)
                                        Sample.planned))))).
    reflexivity.
  - apply (Hfetch _ (js "/api/v3/job/job-1")
                  (Ok (Sample.jobStatus (js "COMPLETED") None None))
                  (skipn 5 (trace (snd (run (executeQuery Sample.scripted (js "SELECT 1") None)
                                            Sample.planned))))).
    reflexivity.
Defined.

Lemma count_polls_results (jobId : option jsstring) (replies : list Reply) :
  count isResultsFetch (polls jobId replies) = 0.
Proof.
  induction replies as [|rep replies IH]; [reflexivity|].
  rewrite polls_cons. unfold count in *.
  cbn [filter isResultsFetch List.length]. exact IH.
Qed.

(** X10.  A status fetch answered with a state that is neither in flight
    nor FAILED, CANCELED or COMPLETED (an unknown state, or none at all)
    ends the call with the error [Query failed with state: ] followed by
    that state, and no results are fetched. *)
Theorem executeQuery_unknown_state :
  forall (B : Type) (serve : B -> Request -> Reply * B) (b : B)
         (sql : jsstring) (maxRows : option Z) (url : jsstring) (d : ResponseData),
    In (Exchange (GET url None) (Ok d))
       (trace (snd (run (executeQuery serve sql maxRows) b))) ->
    isInFlight (data_jobState d) = false ->
    isFailure (data_jobState d) = false ->
    strictEq (data_jobState d) (js "COMPLETED") = false ->
    fst (run (executeQuery serve sql maxRows) b)
    = Throw (Error (js "Query failed with state: " ++ interpolate (data_jobState d)))
    /\ count isResultsFetch (trace (snd (run (executeQuery serve sql maxRows) b))) = 0.
Proof.
  intros B serve b sql maxRows url d.
  pose proof (executeQuery_run B serve sql maxRows b) as Hrun.
  destruct Hrun as [m r|d0 replies e Hp|d0 replies st Hp Hc
                    |d0 replies st m r Hp Hc|d0 replies st d' Hp Hc];
    intros Hin Hfl Hfail Hdone; cbn [In] in Hin.
  - destruct Hin as [H|[]]. discriminate H.
  - destruct Hin as [H|H]; [discriminate H|]. apply polls_any_reply in H.
    pose proof (Polling_terminal _ _ _ _ _ Hp H Hfl Hfail) as He. discriminate He.
  - destruct Hin as [H|H]; [discriminate H|]. apply polls_any_reply in H.
    pose proof (Polling_terminal _ _ _ _ _ Hp H Hfl Hfail) as He.
    injection He as ->. split; [reflexivity|].
    change (Exchange ?x ?y :: ?l) with ([Exchange x y] ++ l).
    now rewrite count_app, count_polls_results.
  - destruct Hin as [H|H]; [discriminate H|].
    apply in_app_iff in H as [H|[H|[]]]; [|discriminate H].
    apply polls_any_reply in H.
    pose proof (Polling_terminal _ _ _ _ _ Hp H Hfl Hfail) as He.
    injection He as ->. congruence.
  - destruct Hin as [H|H]; [discriminate H|].
    apply in_app_iff in H as [H|[H|[]]]; [|discriminate H].
    apply polls_any_reply in H.
    pose proof (Polling_terminal _ _ _ _ _ Hp H Hfl Hfail) as He.
    injection He as ->. congruence.
Qed.

Lemma executeQuery_unknown_state_witness :
  fst (run (executeQuery Sample.scripted (js "SELECT 1") None)
           [Ok (Sample.submitted (js "job-1")); Ok Sample.emptyData])
  = Throw (Error (js "Query failed with state: undefined")).
Proof.
  apply (executeQuery_unknown_state
           _ Sample.scripted _ (js "SELECT 1") None (js "/api/v3/job/job-1") Sample.emptyData);
    [vm_compute; right; right; left; reflexivity|reflexivity..].
Defined.

(** ** Schema and preview *)

Lemma lineScan_cons (c : codeunit) (s : jsstring) :
  c <> DASH -> JS.lineScan false (c :: s) = c :: JS.lineScan false s.
Proof.
  intros Hc. cbn [JS.lineScan]. destruct s as [|d s']; [reflexivity|].
  destruct (N.eqb_spec c DASH); [contradiction|]. reflexivity.
Qed.

Lemma blockScan_cons (c : codeunit) (s : jsstring) :
  c <> SLASH -> blockScan false (c :: s) = c :: blockScan false s.
Proof.
  intros Hc. cbn [blockScan]. destruct s as [|d s']; [reflexivity|].
  destruct (N.eqb_spec c SLASH); [contradiction|]. reflexivity.
Qed.

Lemma trimStart_stops (a : jsstring) (c : codeunit) (b : jsstring) :
  isWhiteSpace c = false -> exists a', trimStart (a ++ c :: b) = a' ++ c :: b.
Proof.
  intros Hc. induction a as [|x a (a' & IH)].
  - exists []. now apply trimStart_fixed.
  - cbn [app trimStart]. destruct (isWhiteSpace x); [now exists a'|now exists (x :: a)].
Qed.

Lemma trimEnd_keeps_prefix (p : jsstring) (c : codeunit) (rest : jsstring) :
  isWhiteSpace c = false -> exists rest', trimEnd (p ++ c :: rest) = p ++ c :: rest'.
Proof.
  intros Hc. unfold trimEnd.
  rewrite rev_app_distr. cbn [rev]. rewrite <- app_assoc. cbn [app].
  destruct (trimStart_stops (rev rest) c (rev p) Hc) as (a' & ->).
  exists (rev a'). rewrite rev_app_distr. cbn [rev].
  rewrite rev_involutive, <- app_assoc. reflexivity.
Qed.

(** A statement that opens with [SELECT *] is accepted, whatever follows. *)
Lemma isSelectQuery_select_star (rest : jsstring) :
  isSelectQuery (js "SELECT *" ++ rest) = true.
Proof.
  unfold isSelectQuery, trim, stripLineComments, stripBlockComments.
  change (js "SELECT *" ++ rest) with ([83; 69; 76; 69; 67; 84; 32]%N ++ 42%N :: rest).
  assert (Hstart : forall t, trimStart ([83; 69; 76; 69; 67; 84; 32]%N ++ 42%N :: t)
                             = [83; 69; 76; 69; 67; 84; 32]%N ++ 42%N :: t)
    by (intros t; now apply trimStart_fixed).
  rewrite Hstart.
  destruct (trimEnd_keeps_prefix [83; 69; 76; 69; 67; 84; 32]%N 42%N rest eq_refl)
    as (t1 & Ht1).
  unfold jsstring, codeunit in *. rewrite Ht1.
  cbn [app]. rewrite !lineScan_cons by discriminate.
  rewrite !blockScan_cons by discriminate.
  change (83 :: 69 :: 76 :: 69 :: 67 :: 84 :: 32 :: 42 :: ?t)%N
    with ([83; 69; 76; 69; 67; 84; 32]%N ++ 42%N :: t).
  rewrite Hstart.
  destruct (trimEnd_keeps_prefix [83; 69; 76; 69; 67; 84; 32]%N 42%N
                                 (blockScan false (JS.lineScan false t1)) eq_refl)
    as (t2 & Ht2).
  unfold jsstring, codeunit in *. rewrite Ht2.
  reflexivity.
Qed.

Lemma bind_ret_trace (B A C : Type) (m : M B A) (f : A -> C) (w : World B) :
  trace (snd (bind m (fun a => ret (f a)) w)) = trace (snd (m w)).
Proof. unfold bind, ret. now destruct (m w) as [[a|e|] w']. Qed.

(** A continuation that only returns or throws adds nothing to the trace. *)
Lemma bind_settle_trace (B A C D : Type) (m : M B A) (f : A -> Exn + C) (g : C -> D)
      (w : World B) :
  trace (snd (bind m (fun a => match f a with
                               | inl e => throw e
                               | inr c => ret (g c)
                               end) w))
  = trace (snd (m w)).
Proof.
  unfold bind, ret, throw. destruct (m w) as [[a|e|] w']; [|reflexivity|reflexivity].
  now destruct (f a).
Qed.

Lemma submitted_app (l l' : list Event) : submitted (l ++ l') = submitted l ++ submitted l'.
Proof.
  induction l as [|[[url limit|url sql] rep|ms] l IH]; cbn [app submitted];
    [reflexivity|exact IH|now rewrite IH|exact IH].
Qed.

Lemma submitted_polls (jobId : option jsstring) (replies : list Reply) :
  submitted (polls jobId replies) = [].
Proof.
  induction replies as [|rep replies IH]; [reflexivity|].
  rewrite polls_cons. exact IH.
Qed.

(** A run submits its statement and nothing else. *)
Lemma QueryRun_submitted sql limit tr o :
  QueryRun sql limit tr o -> submitted tr = [sql].
Proof.
  intros [m r|d0 replies e Hp|d0 replies st Hp Hc
          |d0 replies st m r Hp Hc|d0 replies st d Hp Hc];
    cbn [submitted]; rewrite ?submitted_app, ?submitted_polls; reflexivity.
Qed.

Lemma QueryRun_limit sql limit tr o url l rep :
  QueryRun sql limit tr o -> In (Exchange (GET url (Some l)) rep) tr -> l = limit.
Proof.
  intros [m r|d0 replies e Hp|d0 replies st Hp Hc
          |d0 replies st m r Hp Hc|d0 replies st d Hp Hc] Hin;
    cbn [In] in Hin; destruct Hin as [H|H]; try discriminate H;
    try (now apply polls_no_limit in H); try contradiction;
    apply in_app_iff in H as [H|[H|[]]];
    try (now apply polls_no_limit in H); now injection H.
Qed.

(** X11.  For a table path that [buildTableReference] accepts,
    [getTableSchema] and [previewTable] each submit exactly one
    statement, [SELECT * FROM <reference> LIMIT 0] and
    [... LIMIT 10]; both statements pass [isSelectQuery], and the results
    are asked for with the limits 500 and 10. *)
Theorem table_operations_submit_select :
  forall (B : Type) (serve : B -> Request -> Reply * B) (b : B)
         (tablePath : option (list jsval)) (tableRef : jsstring),
    buildTableReference tablePath = inr tableRef ->
    let schemaSql := js "SELECT * FROM " ++ tableRef ++ js " LIMIT 0" in
    let previewSql := js "SELECT * FROM " ++ tableRef ++ js " LIMIT 10" in
    isSelectQuery schemaSql = true
    /\ isSelectQuery previewSql = true
    /\ submitted (trace (snd (run (getTableSchema serve tablePath) b))) = [schemaSql]
    /\ submitted (trace (snd (run (previewTable serve tablePath) b))) = [previewSql]
    /\ (forall url limit rep,
           In (Exchange (GET url (Some limit)) rep)
              (trace (snd (run (getTableSchema serve tablePath) b))) ->
           limit = 500%Z)
    /\ (forall url limit rep,
           In (Exchange (GET url (Some limit)) rep)
              (trace (snd (run (previewTable serve tablePath) b))) ->
           limit = 10%Z).
Proof.
  intros B serve b tablePath tableRef Href schemaSql previewSql.
  split; [apply (isSelectQuery_select_star (js " FROM " ++ tableRef ++ js " LIMIT 0"))|].
  split; [apply (isSelectQuery_select_star (js " FROM " ++ tableRef ++ js " LIMIT 10"))|].
  pose proof (executeQuery_run B serve schemaSql None b) as Hschema.
  pose proof (executeQuery_run B serve previewSql (Some 10%Z) b) as Hpreview.
  unfold run, getTableSchema, previewTable in *. rewrite Href.
  fold schemaSql previewSql. rewrite bind_ret_trace.
  split; [now apply QueryRun_submitted in Hschema|].
  split; [now apply QueryRun_submitted in Hpreview|].
  split; intros url limit rep Hin.
  - apply (QueryRun_limit _ _ _ _ _ _ _ Hschema Hin).
  - apply (QueryRun_limit _ _ _ _ _ _ _ Hpreview Hin).
Qed.

Lemma table_operations_submit_select_witness :
  submitted (trace (snd (run (previewTable Sample.scripted
                                           (Some [VString (js "s"); VString (js "t")]))
                             Sample.overServing)))
  = [js "SELECT * FROM " ++ ([34] ++ js "s" ++ [34; 46; 34] ++ js "t" ++ [34])%N
        ++ js " LIMIT 10"].
Proof.
  apply (table_operations_submit_select
           _ Sample.scripted Sample.overServing
           (Some [VString (js "s"); VString (js "t")]) _ eq_refl).
Defined.

(** ** More on catalog search *)

(** X12.  With the empty search term (and a [toLowerCase] that keeps the
    empty string empty) every entity that has a non-empty path matches:
    [searchCatalog] returns all of them, in traversal order, and leaves
    out the ones without a path or with an empty one. *)
Theorem searchCatalog_empty_term :
  forall (B : Type) (serve : B -> Request -> Reply * B)
         (toLowerCase : jsstring -> jsstring) (b : B) (rootCatalog : ResponseData),
    toLowerCase [] = [] ->
    fst (serve b (GET (js "/api/v3/catalog") None)) = Ok rootCatalog ->
    fst (run (searchCatalog serve toLowerCase []) b)
    = Return (filter hasNonEmptyPath (entitiesOf rootCatalog)).
Proof.
  intros B serve toLowerCase b rootCatalog Hlower Hroot.
  unfold run, searchCatalog, getCatalog, bind, request. cbn [catalogUrl backend trace].
  destruct (serve b (GET (js "/api/v3/catalog") None)) as [rep b'].
  cbn [fst] in Hroot. subst rep. cbn [fst ret].
  rewrite searchRoot_filter. f_equal. apply filter_ext.
  intros [i [[|seg segs]|] cs]; try reflexivity.
  unfold isMatch, hasNonEmptyPath. cbn [path]. rewrite Hlower. apply includes_empty.
Qed.

Lemma searchCatalog_empty_term_witness :
  fst (run (searchCatalog Sample.scripted Sample.asciiLower []) [Ok Sample.listing])
  = Return [Sample.sales; Sample.orders; mkEntity (js "6") (Some [js "border"]) None].
Proof.
  apply (searchCatalog_empty_term _ Sample.scripted Sample.asciiLower
                                  [Ok Sample.listing] Sample.listing); reflexivity.
Defined.

(** ** The earlier revision, in general *)

(** X13.  The earlier [getCatalog] joins the segments before encoding
    them: whatever the path, what follows the catalog prefix in its URL
    holds no slash at all, every separator having been encoded with the
    rest; and a path whose join is empty is asked for as the root. *)
Theorem legacy_catalogUrl_encodes_separators :
  forall (path : list jsstring) (url : jsstring),
    Legacy.catalogUrl (Some path) = inr url ->
    (join [SLASH] path = [] /\ url = js "/api/v3/catalog")
    \/ (exists whole,
           encodeURIComponent (join [SLASH] path) = Some whole
           /\ url = js "/api/v3/catalog/" ++ whole
           /\ ~ In SLASH whole).
Proof.
  intros path url H. unfold Legacy.catalogUrl in H.
  destruct (join [SLASH] path) as [|c pathStr] eqn:Hjoin.
  - left. split; [reflexivity|]. now injection H as <-.
  - right. destruct (encodeURIComponent (c :: pathStr)) as [whole|] eqn:He; [|discriminate H].
    exists whole. split; [reflexivity|]. split; [now injection H as <-|].
    now apply (encode_no_slash (c :: pathStr)).
Qed.

Lemma legacy_catalogUrl_encodes_separators_witness :
  exists whole,
    encodeURIComponent (js "ulysses1/arpu") = Some whole
    /\ js "/api/v3/catalog/ulysses1%2Farpu" = js "/api/v3/catalog/" ++ whole
    /\ ~ In SLASH whole.
Proof.
  destruct (legacy_catalogUrl_encodes_separators
              [js "ulysses1"; js "arpu"] (js "/api/v3/catalog/ulysses1%2Farpu") eq_refl)
    as [[H _]|H]; [discriminate H|exact H].
Defined.

Section LegacySearch.

Variable toLowerCase : jsstring -> jsstring.
Variable searchTerm : jsstring.

Local Abbreviation found := (legacyFound toLowerCase searchTerm).

(** The earlier closure pushes the matching entities of the subtree when
    every entity of the subtree has a path, and throws otherwise. *)
Lemma legacy_searchRecursive_found (e : CatalogEntity) :
  forall results,
    Legacy.searchRecursive toLowerCase searchTerm e results
    = found (Contract.preorder e) results.
Proof.
  induction e as [i p|i p cs IH] using CatalogEntity_children_ind; intros results;
    cbn [Legacy.searchRecursive]; unfold legacyFound;
    cbn [Contract.preorder children forallb hasPath path].
  - destruct p as [p|]; [|reflexivity].
    cbn [filter andb]. unfold legacyMatch. cbn [path].
    destruct (nameMatches _ _ _); [reflexivity|now rewrite app_nil_r].
  - destruct p as [p|]; [|reflexivity]. cbn [andb filter].
    unfold legacyMatch at 1. cbn [path].
    match goal with
    | |- ?each cs ?r = _ =>
      assert (Heach : forall acc,
                 each cs acc = found (flat_map Contract.preorder cs) acc)
    end.
    { induction IH as [|c cs' Hc _ IHcs]; intros acc.
      - unfold legacyFound. cbn. now rewrite app_nil_r.
      - cbn [flat_map]. rewrite Hc. unfold legacyFound.
        rewrite forallb_app, filter_app.
        destruct (forallb hasPath (Contract.preorder c)); [|reflexivity].
        cbn [andb]. rewrite IHcs. unfold legacyFound.
        destruct (forallb hasPath (flat_map Contract.preorder cs')); [|reflexivity].
        now rewrite app_assoc. }
    rewrite Heach. unfold legacyFound.
    destruct (forallb hasPath (flat_map Contract.preorder cs)); [|reflexivity].
    destruct (nameMatches _ _ _); [now rewrite <- app_assoc|reflexivity].
Qed.

End LegacySearch.

(** X14.  The earlier [searchCatalog] searches the root entity only, and
    throws a TypeError as soon as some entity of that tree has no [path]
    (as the root catalog response itself, a [data] listing without a
    path, never has); when every entity has a path it returns the
    entities whose last segment, or the empty string for an empty path,
    contains the term. *)
Theorem legacy_searchCatalog_needs_paths :
  forall (B : Type) (serve : B -> Request -> Reply * B)
         (toLowerCase : jsstring -> jsstring) (b : B)
         (searchTerm : jsstring) (rootCatalog : ResponseData),
    fst (serve b (GET (js "/api/v3/catalog") None)) = Ok rootCatalog ->
    fst (run (Legacy.searchCatalog serve toLowerCase searchTerm) b)
    = if forallb hasPath (Contract.preorder (asEntity rootCatalog))
      then Return (filter (legacyMatch toLowerCase searchTerm)
                          (Contract.preorder (asEntity rootCatalog)))
      else Throw TypeError.
Proof.
  intros B serve toLowerCase b searchTerm rootCatalog Hroot.
  unfold run, Legacy.searchCatalog, bind, request. cbn [Legacy.catalogUrl join backend trace].
  destruct (serve b (GET (js "/api/v3/catalog") None)) as [rep b'].
  cbn [fst] in Hroot. subst rep. rewrite legacy_searchRecursive_found.
  unfold legacyFound. now destruct (forallb hasPath _).
Qed.

Lemma legacy_searchCatalog_needs_paths_witness :
  fst (run (Legacy.searchCatalog Sample.scripted Sample.asciiLower (js "sales"))
           [Ok Sample.listing])
  = Throw TypeError.
Proof.
  apply (legacy_searchCatalog_needs_paths _ Sample.scripted Sample.asciiLower
                                          [Ok Sample.listing] (js "sales") Sample.listing).
  reflexivity.
Defined.

Section LegacyQuery.

Variable B : Type.
Variable serve : B -> Request -> Reply * B.

Lemma legacy_pollLoop_trace (jobId : option jsstring) (fuel : nat) :
  forall st att w,
    exists replies,
      trace (snd (Legacy.pollLoop serve fuel jobId st att w))
      = trace w ++ polls jobId replies.
Proof.
  induction fuel as [|fuel IH]; intros st att w.
  - exists []. cbn. now rewrite app_nil_r.
  - cbn [Legacy.pollLoop]. destruct (isInFlight st).
    + destruct (maxAttempts <=? att)%nat.
      * exists []. cbn. now rewrite app_nil_r.
      * unfold bind, sleep, request, emit. cbn [backend trace].
        fold (statusUrl jobId).
        destruct (serve (backend w) _) as [rep b']. destruct rep as [d|m r].
        -- match goal with
           | |- context [Legacy.pollLoop serve fuel jobId ?s ?a ?w'] =>
             destruct (IH s a w') as (replies & Ht)
           end.
           exists (Ok d :: replies). rewrite Ht. cbn [trace].
           rewrite polls_cons, <- !app_assoc. reflexivity.
        -- exists [Reject m r]. cbn [snd trace].
           rewrite polls_cons, <- !app_assoc. reflexivity.
    + exists []. cbn. now rewrite app_nil_r.
Qed.

(** The trace of one call of the earlier [executeQuery]: the submission,
    the polls, and at most one results fetch carrying [maxRows] as it
    came. *)
Lemma legacy_executeQuery_trace (sql : jsstring) (maxRows : option Z) (b : B) :
  exists rep0 jobId replies rest,
    trace (snd (run (Legacy.executeQuery serve sql maxRows) b))
    = Exchange (POST (js "/api/v3/sql") sql) rep0 :: polls jobId replies ++ rest
    /\ (rest = []
        \/ exists rep,
            rest = [Exchange (GET (resultsUrl jobId)
                                  (Some (match maxRows with Some n => n | None => 1000%Z end)))
                             rep]).
Proof.
  unfold run, Legacy.executeQuery. unfold bind at 1. unfold request at 1.
  cbn [backend trace app].
  destruct (serve b (POST (js "/api/v3/sql") sql)) as [rep0 b0].
  destruct rep0 as [d0|m r].
  2:{ exists (Reject m r), None, [], []. split; [reflexivity|now left]. }
  unfold bind at 1.
  match goal with
  | |- context [Legacy.pollLoop serve ?f ?j ?s 0 ?w] =>
    destruct (legacy_pollLoop_trace j f s 0 w) as (replies & Ht);
      destruct (Legacy.pollLoop serve f j s 0 w) as [o w1]
  end.
  cbn [snd trace app] in Ht.
  exists (Ok d0), (data_id d0), replies.
  destruct o as [st|e|].
  - destruct (negb (strictEq st (js "COMPLETED"))).
    + exists []. cbn [throw snd]. rewrite Ht, app_nil_r. split; [reflexivity|now left].
    + unfold bind, request. fold (resultsUrl (data_id d0)).
      destruct (serve (backend w1) _) as [rep b2].
      exists [Exchange (GET (resultsUrl (data_id d0))
                            (Some (match maxRows with Some n => n | None => 1000%Z end))) rep].
      split; [|right; now exists rep].
      destruct rep; cbn [snd trace ret]; now rewrite Ht.
  - exists []. cbn [snd]. rewrite Ht, app_nil_r. split; [reflexivity|now left].
  - exists []. cbn [snd]. rewrite Ht, app_nil_r. split; [reflexivity|now left].
Qed.

End LegacyQuery.

(** X15.  The earlier [executeQuery] passes the row limit on as it came:
    a results fetch carries the [maxRows] of the call, or 1000 when none
    was given, with no upper bound. *)
Theorem legacy_executeQuery_limit_unclamped :
  forall (B : Type) (serve : B -> Request -> Reply * B) (b : B)
         (sql : jsstring) (maxRows : option Z) (url : jsstring) (limit : Z) (rep : Reply),
    In (Exchange (GET url (Some limit)) rep)
       (trace (snd (run (Legacy.executeQuery serve sql maxRows) b))) ->
    limit = match maxRows with Some n => n | None => 1000%Z end.
Proof.
  intros B serve b sql maxRows url limit rep Hin.
  destruct (legacy_executeQuery_trace B serve sql maxRows b)
    as (rep0 & jobId & replies & rest & Ht & Hrest).
  rewrite Ht in Hin. destruct Hin as [H|H]; [discriminate H|].
  apply in_app_iff in H as [H|H]; [now apply polls_no_limit in H|].
  destruct Hrest as [->|(rep' & ->)]; [destruct H|].
  destruct H as [H|[]]. now injection H.
Qed.

Lemma legacy_executeQuery_limit_unclamped_witness :
  1000%Z = match @None Z with Some n => n | None => 1000%Z end
  /\ limitsWithin 500
       (trace (snd (run (Legacy.executeQuery Sample.scripted (js "SELECT 1") None)
                        Sample.overServing))) = false.
Proof.
  split; [|reflexivity].
  apply (legacy_executeQuery_limit_unclamped
           _ Sample.scripted Sample.overServing (js "SELECT 1") None
           (js "/api/v3/job/job-1/results") 1000%Z
           (Ok (Sample.resultPage [{| name := js "n"; type := js "INTEGER" |}] 3
                                  Sample.threeRows))).
  vm_compute. right. right. right. left. reflexivity.
Defined.

(** X16.  The earlier [explainQuery] validates nothing: whatever the
    text, SELECT or not, the one statement it submits is
    [EXPLAIN PLAN FOR ] followed by the text. *)
Theorem legacy_explainQuery_submits_anything :
  forall (B : Type) (serve : B -> Request -> Reply * B) (b : B) (sql : jsstring),
    submitted (trace (snd (run (Legacy.explainQuery serve sql) b)))
    = [js "EXPLAIN PLAN FOR " ++ sql].
Proof.
  intros B serve b sql.
  destruct (legacy_executeQuery_trace B serve (js "EXPLAIN PLAN FOR " ++ sql) None b)
    as (rep0 & jobId & replies & rest & Ht & Hrest).
  unfold run, Legacy.explainQuery in *.
  rewrite (bind_settle_trace _ _ _ _ _ (fun q => flattenRows (rows q))
                             (fun t => {| text := t |})), Ht.
  cbn [submitted]. rewrite submitted_app, submitted_polls.
  now destruct Hrest as [->|(rep & ->)].
Qed.

(** ** The tool handler *)

Lemma bind_ret_outcome (B A C : Type) (m : M B A) (f : A -> C) (w : World B) :
  fst (bind m (fun a => ret (f a)) w)
  = match fst (m w) with
    | Return a => Return (f a)
    | Throw e => Throw e
    | OutOfFuel => OutOfFuel
    end.
Proof. unfold bind, ret. now destruct (m w) as [[a|e|] w']. Qed.

Section ToolHandler.

Variable B : Type.
Variable serve : B -> Request -> Reply * B.
Variable toLowerCase : jsstring -> jsstring.
Variable stringifyCatalog : ResponseData -> jsstring.
Variable stringifySchema : list TableSchema -> jsstring.
Variable stringifyResult : QueryResult -> jsstring.
Variable stringifyEntities : list CatalogEntity -> jsstring.
Variable nativeMessage : Exn -> jsstring.

Local Abbreviation dispatch :=
  (Server.dispatch serve toLowerCase stringifyCatalog stringifySchema
                   stringifyResult stringifyEntities).
Local Abbreviation callTool :=
  (Server.callTool serve toLowerCase stringifyCatalog stringifySchema
                   stringifyResult stringifyEntities nativeMessage).

(** A computation that ends, and submits read-only statements only. *)
Local Abbreviation behaves m b :=
  (fst (run m b) <> OutOfFuel
   /\ Forall readOnly (submitted (trace (snd (run m b))))).

Lemma behaves_throw (A : Type) (e : Exn) (b : B) : behaves (@throw B A e) b.
Proof. split; [discriminate|constructor]. Qed.

Lemma behaves_bind_ret (A C : Type) (m : M B A) (f : A -> C) (b : B) :
  behaves m b -> behaves (bind m (fun a => ret (f a))) b.
Proof.
  unfold run. intros [Hend Hsub]. rewrite bind_ret_outcome, bind_ret_trace.
  split; [|exact Hsub]. now destruct (fst (m _)).
Qed.

Lemma behaves_bind_settle (A C D : Type) (m : M B A) (f : A -> Exn + C) (g : C -> D)
      (b : B) :
  behaves m b ->
  behaves (bind m (fun a => match f a with
                            | inl e => throw e
                            | inr c => ret (g c)
                            end)) b.
Proof.
  unfold run. intros [Hend Hsub]. rewrite bind_settle_trace.
  split; [|exact Hsub]. unfold bind, ret, throw.
  destruct (m _) as [[a|e|] w']; [|discriminate|now elim Hend].
  destruct (f a); discriminate.
Qed.

Lemma behaves_executeQuery (sql : jsstring) (maxRows : option Z) (b : B) :
  readOnly sql -> behaves (executeQuery serve sql maxRows) b.
Proof.
  intros Hsql. pose proof (executeQuery_run B serve sql maxRows b) as Hrun.
  split.
  - destruct Hrun; discriminate.
  - rewrite (QueryRun_submitted _ _ _ _ Hrun). constructor; [exact Hsql|constructor].
Qed.

Lemma behaves_getCatalog (path : option (list jsstring)) (b : B) :
  behaves (getCatalog serve path) b.
Proof.
  unfold run, getCatalog. destruct (catalogUrl path) as [e|url].
  - apply (behaves_throw _ e b).
  - unfold request. cbn [backend trace app].
    destruct (serve b (GET url None)) as [[d|m r] b'];
      (split; [discriminate|constructor]).
Qed.

Lemma behaves_getTableSchema (tablePath : option (list jsval)) (b : B) :
  behaves (getTableSchema serve tablePath) b.
Proof.
  unfold getTableSchema. destruct (buildTableReference tablePath) as [e|tableRef].
  - apply behaves_throw.
  - apply behaves_bind_ret, behaves_executeQuery. left.
    apply (isSelectQuery_select_star (js " FROM " ++ tableRef ++ js " LIMIT 0")).
Qed.

Lemma behaves_previewTable (tablePath : option (list jsval)) (b : B) :
  behaves (previewTable serve tablePath) b.
Proof.
  unfold previewTable. destruct (buildTableReference tablePath) as [e|tableRef].
  - apply behaves_throw.
  - apply behaves_executeQuery. left.
    apply (isSelectQuery_select_star (js " FROM " ++ tableRef ++ js " LIMIT 10")).
Qed.

Lemma behaves_explainQuery (sql : jsstring) (b : B) :
  behaves (explainQuery serve sql) b.
Proof.
  unfold explainQuery. destruct (isSelectQuery sql) eqn:Hsel; cbn [negb].
  - apply (behaves_bind_settle _ _ _ _ (fun q => flattenRows (rows q))
                               (fun t => {| text := t |})).
    apply behaves_executeQuery. right. now exists sql.
  - apply behaves_throw.
Qed.

Lemma behaves_searchCatalog (searchTerm : jsstring) (b : B) :
  behaves (searchCatalog serve toLowerCase searchTerm) b.
Proof. unfold searchCatalog. apply behaves_bind_ret, behaves_getCatalog. Qed.

Lemma dispatch_behaves (name : jsstring) (args : Server.ToolArguments) (b : B) :
  behaves (dispatch name args) b.
Proof.
  unfold Server.dispatch.
  repeat match goal with
         | |- context [if Server.sameString name ?l then _ else _] =>
           destruct (Server.sameString name l)
         end;
    repeat match goal with
           | |- context [match Server.arg_table_path args with _ => _ end] =>
             destruct (Server.arg_table_path args)
           | |- context [if Server.missing ?f then _ else _] =>
             destruct (Server.missing f)
           end;
    try apply behaves_throw;
    try (apply behaves_bind_ret;
         first [apply behaves_getCatalog|apply behaves_getTableSchema
               |apply behaves_previewTable|apply behaves_searchCatalog
               |apply behaves_explainQuery]).
  destruct (isSelectQuery _) eqn:Hsel; cbn [negb]; [|apply behaves_throw].
  apply behaves_bind_ret, behaves_executeQuery. now left.
Qed.

Lemma dispatch_success (name : jsstring) (args : Server.ToolArguments) (b : B)
      (response : Server.ToolResponse) :
  fst (run (dispatch name args) b) = Return response ->
  Server.isError response = false.
Proof.
  unfold run, Server.dispatch.
  repeat match goal with
         | |- context [if Server.sameString name ?l then _ else _] =>
           destruct (Server.sameString name l)
         end;
    repeat match goal with
           | |- context [match Server.arg_table_path args with _ => _ end] =>
             destruct (Server.arg_table_path args)
           | |- context [if Server.missing ?f then _ else _] =>
             destruct (Server.missing f)
           | |- context [if negb (isSelectQuery ?s) then _ else _] =>
             destruct (negb (isSelectQuery s))
           end;
    try discriminate;
    rewrite bind_ret_outcome;
    match goal with
    | |- context [fst (?m ?w)] => destruct (fst (m w))
    end; try discriminate; now intros [= <-].
Qed.

Lemma callTool_outcome (name : jsstring) (args : Server.ToolArguments) (b : B) :
  run (callTool name args) b
  = match run (dispatch name args) b with
    | (Throw e, w) =>
      (Return {| Server.content := js "Error: " ++ Server.messageOf nativeMessage e;
                 Server.isError := true |}, w)
    | r => r
    end.
Proof.
  unfold run, Server.callTool, tryCatch.
  now destruct (Server.dispatch _ _ _ _ _ _ _ _ _) as [[r|e|] w].
Qed.

End ToolHandler.

(** X17.  The CallTool handler always answers: whatever the tool name,
    the arguments and the backend, it returns a result and never throws.
    The result carries [isError] exactly when the tool itself threw, and
    its text is then [Error: ] followed by the message of that error. *)
Theorem callTool_always_answers :
  forall (B : Type) (serve : B -> Request -> Reply * B)
         (toLowerCase : jsstring -> jsstring)
         (stringifyCatalog : ResponseData -> jsstring)
         (stringifySchema : list TableSchema -> jsstring)
         (stringifyResult : QueryResult -> jsstring)
         (stringifyEntities : list CatalogEntity -> jsstring)
         (nativeMessage : Exn -> jsstring)
         (name : jsstring) (args : Server.ToolArguments) (b : B),
    let tool := Server.dispatch serve toLowerCase stringifyCatalog stringifySchema
                                stringifyResult stringifyEntities name args in
    exists response,
      fst (run (Server.callTool serve toLowerCase stringifyCatalog stringifySchema
                                stringifyResult stringifyEntities nativeMessage
                                name args) b)
      = Return response
      /\ ((Server.isError response = false /\ fst (run tool b) = Return response)
          \/ (exists e,
                 fst (run tool b) = Throw e
                 /\ response
                    = {| Server.content := js "Error: " ++ Server.messageOf nativeMessage e;
                         Server.isError := true |})).
Proof.
  intros B serve toLowerCase sC sS sR sE nativeMessage name args b tool.
  rewrite callTool_outcome.
  pose proof (dispatch_behaves B serve toLowerCase sC sS sR sE name args b) as [Hend _].
  pose proof (dispatch_success B serve toLowerCase sC sS sR sE name args b) as Hok.
  fold tool in Hend, Hok |- *.
  destruct (run tool b) as [[r|e|] w]; cbn [fst] in *.
  - exists r. split; [reflexivity|]. left. split; [now apply Hok|reflexivity].
  - eexists. split; [reflexivity|]. right. now exists e.
  - contradiction.
Qed.

(** X18.  Every statement the CallTool handler submits to the backend,
    for any tool and any arguments, is a text that [isSelectQuery]
    accepts or [EXPLAIN PLAN FOR ] followed by such a text. *)
Theorem callTool_submits_read_only :
  forall (B : Type) (serve : B -> Request -> Reply * B)
         (toLowerCase : jsstring -> jsstring)
         (stringifyCatalog : ResponseData -> jsstring)
         (stringifySchema : list TableSchema -> jsstring)
         (stringifyResult : QueryResult -> jsstring)
         (stringifyEntities : list CatalogEntity -> jsstring)
         (nativeMessage : Exn -> jsstring)
         (name : jsstring) (args : Server.ToolArguments) (b : B),
    Forall readOnly
           (submitted
              (trace (snd (run (Server.callTool serve toLowerCase stringifyCatalog
                                                stringifySchema stringifyResult
                                                stringifyEntities nativeMessage
                                                name args) b)))).
Proof.
  intros B serve toLowerCase sC sS sR sE nativeMessage name args b.
  rewrite callTool_outcome.
  pose proof (dispatch_behaves B serve toLowerCase sC sS sR sE name args b) as [_ Hsub].
  now destruct (run _ b) as [[r|e|] w].
Qed.

Lemma sameString_false (a b : jsstring) : a <> b -> Server.sameString a b = false.
Proof.
  intros H. unfold Server.sameString. now destruct (list_eq_dec N.eq_dec a b).
Qed.

(** X19.  The CallTool handler refuses, with an error result and without
    sending anything: [sql_query] and [explain_query] without a text or
    with a text [isSelectQuery] rejects, [schema_get] and [table_preview]
    without a table path or with an empty one, [search_catalog] without a
    term, and any tool name it does not know. *)
Theorem callTool_refuses_before_request :
  forall (B : Type) (serve : B -> Request -> Reply * B)
         (toLowerCase : jsstring -> jsstring)
         (stringifyCatalog : ResponseData -> jsstring)
         (stringifySchema : list TableSchema -> jsstring)
         (stringifyResult : QueryResult -> jsstring)
         (stringifyEntities : list CatalogEntity -> jsstring)
         (nativeMessage : Exn -> jsstring)
         (args : Server.ToolArguments) (b : B),
    let call name :=
        run (Server.callTool serve toLowerCase stringifyCatalog stringifySchema
                             stringifyResult stringifyEntities nativeMessage name args) b in
    let refused message :=
        (Return {| Server.content := js "Error: " ++ message; Server.isError := true |},
         {| backend := b; trace := [] |}) in
    (Server.missing (Server.arg_sql args) = true ->
     call (js "sql_query") = refused (js "sql is required")
     /\ call (js "explain_query") = refused (js "sql is required"))
    /\ (forall sql,
           Server.arg_sql args = Some sql -> sql <> [] -> isSelectQuery sql = false ->
           call (js "sql_query") = refused (js "Only SELECT queries are allowed")
           /\ call (js "explain_query") = refused (js "Only SELECT queries can be explained"))
    /\ (Server.arg_table_path args = None ->
        call (js "schema_get") = refused (js "table_path is required and must be an array")
        /\ call (js "table_preview") = refused (js "table_path is required and must be an array"))
    /\ (Server.arg_table_path args = Some [] ->
        call (js "schema_get") = refused (js "Table path cannot be empty")
        /\ call (js "table_preview") = refused (js "Table path cannot be empty"))
    /\ (Server.missing (Server.arg_search_term args) = true ->
        call (js "search_catalog") = refused (js "search_term is required"))
    /\ (forall name,
           ~ In name [js "catalog_browse"; js "schema_get"; js "sql_query";
                      js "table_preview"; js "search_catalog"; js "explain_query"] ->
           call name = refused (js "Unknown tool: " ++ name)).
Proof.
  intros B serve toLowerCase sC sS sR sE nativeMessage args b call refused.
  unfold call, refused, run, Server.callTool, Server.dispatch, tryCatch.
  split; [intros Hmiss|split; [intros sql Hsql Hne Hsel|split; [intros Hnone|
          split; [intros Hempty|split; [intros Hterm|intros name Hname]]]]];
    try split;
    repeat match goal with
           | |- context [Server.sameString (js ?x) (js ?y)] =>
             let v := eval vm_compute in (Server.sameString (js x) (js y)) in
             change (Server.sameString (js x) (js y)) with v
           end;
    cbv iota.
  - now rewrite Hmiss.
  - now rewrite Hmiss.
  - rewrite Hsql. destruct sql as [|c sql]; [contradiction|].
    cbn [Server.missing]. now rewrite Hsel.
  - rewrite Hsql. destruct sql as [|c sql]; [contradiction|].
    cbn [Server.missing]. unfold explainQuery. now rewrite Hsel.
  - now rewrite Hnone.
  - now rewrite Hnone.
  - now rewrite Hempty.
  - now rewrite Hempty.
  - now rewrite Hterm.
  - cbn [In] in Hname.
    rewrite !sameString_false by (intros Heq; apply Hname; rewrite Heq; tauto).
    reflexivity.
Qed.

Lemma callTool_refuses_before_request_witness :
  run (Server.callTool Sample.scripted Sample.asciiLower
                       (fun _ => []) (fun _ => []) (fun _ => []) (fun _ => [])
                       (fun _ => [])
                       (js "sql_query")
                       {| Server.arg_path := None; Server.arg_table_path := None;
                          Server.arg_sql := Some (js "DROP TABLE t");
                          Server.arg_max_rows := None;
                          Server.arg_search_term := None |})
      Sample.overServing
  = (Return {| Server.content := js "Error: Only SELECT queries are allowed";
               Server.isError := true |},
     {| backend := Sample.overServing; trace := [] |}).
Proof.
  destruct (callTool_refuses_before_request
              _ Sample.scripted Sample.asciiLower
              (fun _ => []) (fun _ => []) (fun _ => []) (fun _ => []) (fun _ => [])
              {| Server.arg_path := None; Server.arg_table_path := None;
                 Server.arg_sql := Some (js "DROP TABLE t");
                 Server.arg_max_rows := None;
                 Server.arg_search_term := None |}
              Sample.overServing) as (_ & Hsql & _).
  destruct (Hsql (js "DROP TABLE t") eq_refl) as [H _];
    [discriminate|reflexivity|exact H].
Defined.

(** X20.  For a text that [sql_query] accepts, the statement submitted is
    that text and the results are asked for with the limit
    [min(min(max_rows || 1000, 1000), 500)]: never more than 500, and 500
    when [max_rows] is missing or 0. *)
Theorem sql_query_row_limit :
  forall (B : Type) (serve : B -> Request -> Reply * B)
         (toLowerCase : jsstring -> jsstring)
         (stringifyCatalog : ResponseData -> jsstring)
         (stringifySchema : list TableSchema -> jsstring)
         (stringifyResult : QueryResult -> jsstring)
         (stringifyEntities : list CatalogEntity -> jsstring)
         (nativeMessage : Exn -> jsstring)
         (args : Server.ToolArguments) (b : B) (sql : jsstring),
    Server.arg_sql args = Some sql -> sql <> [] -> isSelectQuery sql = true ->
    let tr := trace (snd (run (Server.callTool serve toLowerCase stringifyCatalog
                                               stringifySchema stringifyResult
                                               stringifyEntities nativeMessage
                                               (js "sql_query") args) b)) in
    submitted tr = [sql]
    /\ (forall url limit rep,
           In (Exchange (GET url (Some limit)) rep) tr ->
           limit = Z.min (Server.requestedRows (Server.arg_max_rows args)) 500
           /\ (limit <= 500)%Z
           /\ (Server.arg_max_rows args = None \/ Server.arg_max_rows args = Some 0%Z ->
               limit = 500%Z)
           /\ (forall n, Server.arg_max_rows args = Some n -> (0 < n <= 500)%Z ->
                         limit = n)).
Proof.
  intros B serve toLowerCase sC sS sR sE nativeMessage args b sql Hsql Hne Hsel tr.
  pose proof (executeQuery_run B serve sql
                               (Some (Server.requestedRows (Server.arg_max_rows args))) b)
    as Hrun.
  assert (Htr : tr = trace (snd (run (executeQuery serve sql
                (Some (Server.requestedRows (Server.arg_max_rows args)))) b))).
  { unfold tr. rewrite callTool_outcome. unfold run, Server.dispatch.
    change (Server.sameString (js "sql_query") (js "catalog_browse")) with false.
    change (Server.sameString (js "sql_query") (js "schema_get")) with false.
    change (Server.sameString (js "sql_query") (js "sql_query")) with true.
    cbv iota. rewrite Hsql. destruct sql as [|c sql]; [contradiction|].
    cbn [Server.missing]. rewrite Hsel. cbn [negb].
    rewrite <- (bind_ret_trace _ _ _ (executeQuery serve (c :: sql) _)
                               (fun result => Server.success (sR result))).
    now destruct (bind _ _ _) as [[r|e|] w]. }
  rewrite Htr. split; [now apply QueryRun_submitted in Hrun|].
  intros url limit rep Hin.
  pose proof (QueryRun_limit _ _ _ _ _ _ _ Hrun Hin) as ->.
  unfold clamp, Server.requestedRows. split; [reflexivity|]. split; [lia|].
  split.
  - intros [->| ->]; reflexivity.
  - intros n -> Hn. destruct (Z.eqb_spec n 0); lia.
Qed.

Lemma sql_query_row_limit_witness :
  submitted
    (trace (snd (run (Server.callTool Sample.scripted Sample.asciiLower
                                      (fun _ => []) (fun _ => []) (fun _ => [])
                                      (fun _ => []) (fun _ => [])
                                      (js "sql_query")
                                      {| Server.arg_path := None;
                                         Server.arg_table_path := None;
                                         Server.arg_sql := Some (js "SELECT 1");
                                         Server.arg_max_rows := Some 0%Z;
                                         Server.arg_search_term := None |})
                     Sample.overServing)))
  = [js "SELECT 1"].
Proof.
  apply (sql_query_row_limit
           _ Sample.scripted Sample.asciiLower
           (fun _ => []) (fun _ => []) (fun _ => []) (fun _ => []) (fun _ => [])
           {| Server.arg_path := None; Server.arg_table_path := None;
              Server.arg_sql := Some (js "SELECT 1");
              Server.arg_max_rows := Some 0%Z;
              Server.arg_search_term := None |}
           Sample.overServing (js "SELECT 1") eq_refl);
    [discriminate|reflexivity].
Defined.

(** ** Start-up *)

(** X21.  The server starts only when both the URL and the token are set
    and not empty, and leaves with code 1 otherwise.  When it starts, the
    client sends [Bearer ] followed by the token, and certificate checks
    are switched off exactly when DREMIO_REJECT_UNAUTHORIZED is the
    string [false]: any other value, or none, leaves the default agent in
    place. *)
Theorem startup_configuration :
  forall env : Config.Env,
    (Config.startup env = Config.Exit 1
     <-> (Server.missing (Config.DREMIO_URL env) = true
          \/ Server.missing (Config.DREMIO_PAT env) = true))
    /\ (forall axiosConfig,
           Config.startup env = Config.Serving axiosConfig ->
           Config.DREMIO_URL env = Some (Config.baseURL axiosConfig)
           /\ (exists pat, Config.DREMIO_PAT env = Some pat
                           /\ Config.Authorization axiosConfig = js "Bearer " ++ pat)
           /\ (Config.httpsAgent axiosConfig = Some false
               <-> Config.DREMIO_REJECT_UNAUTHORIZED env = Some (js "false"))
           /\ (Config.httpsAgent axiosConfig = None
               <-> Config.DREMIO_REJECT_UNAUTHORIZED env <> Some (js "false"))).
Proof.
  intros [url pat reject]. unfold Config.startup, Config.constructor.
  cbn [Config.DREMIO_URL Config.DREMIO_PAT Config.DREMIO_REJECT_UNAUTHORIZED
       Config.url Config.pat Config.rejectUnauthorized].
  split.
  - destruct url as [[|u url]|], pat as [[|p pat]|]; cbn [Server.missing];
      split; intros H; try reflexivity; try discriminate H; try tauto;
      destruct H; discriminate.
  - intros axiosConfig H.
    destruct url as [[|u url]|]; try discriminate H.
    destruct pat as [[|p pat]|]; try discriminate H.
    injection H as <-.
    cbn [Config.baseURL Config.Authorization Config.httpsAgent].
    split; [reflexivity|]. split; [now exists (p :: pat)|].
    destruct (strictEq reject (js "false")) eqn:Hs; cbn [negb].
    + apply strictEq_true in Hs. subst reject.
      split; split; try reflexivity; try discriminate.
      intros H; now contradiction H.
    + split; split; try reflexivity; try discriminate.
      * intros ->. discriminate Hs.
      * intros _ ->. discriminate Hs.
Qed.

Lemma startup_configuration_witness :
  Config.httpsAgent
    (Config.constructor {| Config.url := js "https://dremio.example";
                           Config.pat := js "token";
                           Config.rejectUnauthorized := Some true |})
  = None
  <-> Some (js "FALSE") <> Some (js "false").
Proof.
  destruct (startup_configuration
              {| Config.DREMIO_URL := Some (js "https://dremio.example");
                 Config.DREMIO_PAT := Some (js "token");
                 Config.DREMIO_REJECT_UNAUTHORIZED := Some (js "FALSE") |}) as [_ H].
  destruct (H _ eq_refl) as (_ & _ & _ & Hnone). exact Hnone.
Defined.
